(** * Python web code executor: retry client, debounced autosave, run handlers

    A shallow embedding of the JavaScript front-ends of the repository:
    - [JS]: the fragment of JavaScript values, exceptions and DOM state the
      handlers use;
    - [Retry]: the exponential-backoff loop of [getSuggestion]
      (src/static/script.js);
    - [Sync]: [saveEditorContent] and [setupEditorPersistence]
      (src/static/script.js) under an event loop with timers;
    - [Run]: the run-code handlers of the five pages that post to the server. *)

From Stdlib Require Import ZArith Lia Bool DecimalString.
From stdpp Require Import base list strings.

Local Open Scope string_scope.
Local Open Scope nat_scope.
Local Open Scope list_scope.
#[local] Set Warnings "-register-all".

(* ===================================================================== *)
(** * JavaScript values, exceptions, the DOM *)
(* ===================================================================== *)
Module JS.

(** A JavaScript value as [JSON.parse] can produce it, plus [undefined].
    Numbers are the integers; an object is its table of own properties. *)
Inductive value : Type :=
| VUndefined
| VNull
| VBool (b : bool)
| VNum (n : Z)
| VStr (s : string)
| VArr (items : list value)
| VObj (fields : list (string * value)).

(** [if (v)]: undefined, null, false, 0 and the empty string are falsy. *)
Definition truthy (v : value) : bool :=
  match v with
  | VUndefined | VNull => false
  | VBool b => b
  | VNum n => negb (n =? 0)%Z
  | VStr s => negb (String.eqb s "")
  | VArr _ | VObj _ => true
  end.

Inductive exn : Type :=
| TypeError (msg : string)
| Error (msg : string).

Definition message (e : exn) : string :=
  match e with TypeError m | Error m => m end.

(** Own-property lookup; a missing property reads as [undefined]. *)
Fixpoint own (k : string) (fs : list (string * value)) : value :=
  match fs with
  | [] => VUndefined
  | (k', v) :: fs => if String.eqb k k' then v else own k fs
  end.

(** [v.k] for the property names the handlers read ([error], [output],
    [message], [candidates], ...): none of them is a property of a string,
    number, boolean or array, so there the read gives [undefined]; on
    [null] and [undefined] it throws. *)
Definition get (v : value) (k : string) : exn + value :=
  match v with
  | VUndefined => inl (TypeError "Cannot read properties of undefined")
  | VNull => inl (TypeError "Cannot read properties of null")
  | VObj fs => inr (own k fs)
  | VBool _ | VNum _ | VStr _ | VArr _ => inr VUndefined
  end.

(** [v?.k] *)
Definition get_opt (v : value) (k : string) : value :=
  match get v k with inl _ => VUndefined | inr x => x end.

(** [v?.[0]] : the first element of an array, the first character of a
    string, the property named 0 of an object. *)
Definition first_opt (v : value) : value :=
  match v with
  | VArr (x :: _) => x
  | VStr (String c _) => VStr (String c "")
  | VObj fs => own "0" fs
  | _ => VUndefined
  end.

(** [v[0]] *)
Definition first (v : value) : exn + value :=
  match v with
  | VUndefined => inl (TypeError "Cannot read properties of undefined")
  | VNull => inl (TypeError "Cannot read properties of null")
  | _ => inr (first_opt v)
  end.

(** [a || b] on values *)
Definition or_else (a b : value) : value := if truthy a then a else b.

(** ** What [fetch] and [response.json()] can do *)

Record http_response : Type := { ok : bool; statusText : string }.

(** [await response.json()] resolves with the parsed body or rejects. *)
Inductive body_result : Type :=
| BodyJson (v : value)
| BodyInvalid (err : string).

(** [await fetch(...)] rejects (no response at all) or resolves with a
    response, whatever its status. *)
Inductive fetch_result : Type :=
| NetworkError (err : string)
| Response (r : http_response) (b : body_result).

(** ** Text shown to the user

    String concatenation and template literals are kept symbolic: the
    conversion of a value to a string is not computed. *)
Inductive lang : Type := En | Bn.

Inductive text : Type :=
| TLit (s : string)
| TVal (v : value)
| TMsg (l : lang) (key : string)      (* uiTexts[l][key] *)
| TCat (a b : text).

Infix "+++" := TCat (at level 60, right associativity).

(** ** DOM elements

    The content of an element stands for whichever of [textContent],
    [innerHTML] or [value] the page writes. *)
Record element : Type := {
  disabled : bool;
  content : text;
  classes : list string;
  color : string
}.

Definition blank : element :=
  {| disabled := false; content := TLit ""; classes := []; color := "" |}.

Definition set_disabled (b : bool) (e : element) : element :=
  {| disabled := b; content := content e; classes := classes e; color := color e |}.
Definition set_content (t : text) (e : element) : element :=
  {| disabled := disabled e; content := t; classes := classes e; color := color e |}.
Definition set_classes (cs : list string) (e : element) : element :=
  {| disabled := disabled e; content := content e; classes := cs; color := color e |}.
Definition set_color (c : string) (e : element) : element :=
  {| disabled := disabled e; content := content e; classes := classes e; color := c |}.

Definition has_class (c : string) (e : element) : bool :=
  existsb (String.eqb c) (classes e).
Definition class_remove (c : string) (e : element) : element :=
  set_classes (List.filter (fun c' => negb (String.eqb c c')) (classes e)) e.
Definition class_add (c : string) (e : element) : element :=
  if has_class c e then e else set_classes (classes e ++ [c]) e.
(** [classList.toggle(c, force)] *)
Definition class_toggle (c : string) (force : bool) (e : element) : element :=
  if force then class_add c e else class_remove c e.

(** The document: every element the scripts look up exists. *)
Definition dom : Type := string -> element.

Definition on_element (id : string) (f : element -> element) (d : dom) : dom :=
  fun id' => if String.eqb id id' then f (d id') else d id'.

(** ** Statements that may throw, over a mutable state *)
Section Monad.
Context {St : Type}.

Definition M (A : Type) : Type := St -> (exn + A) * St.

Definition ret {A} (a : A) : M A := fun s => (inr a, s).
Definition throw {A} (e : exn) : M A := fun s => (inl e, s).
Definition bind {A B} (m : M A) (k : A -> M B) : M B :=
  fun s => match m s with
           | (inl e, s') => (inl e, s')
           | (inr a, s') => k a s'
           end.
Definition modify (f : St -> St) : M unit := fun s => (inr tt, f s).
Definition read {A} (f : St -> A) : M A := fun s => (inr (f s), s).
Definition lift {A} (r : exn + A) : M A := fun s => (r, s).

(** [try { body } catch (e) { handler e }] *)
Definition try_catch {A} (body : M A) (handler : exn -> M A) : M A :=
  fun s => match body s with
           | (inl e, s') => handler e s'
           | (inr a, s') => (inr a, s')
           end.

(** [try { body } finally { fin }]: [fin] always runs; what it throws
    replaces the outcome of [body]. *)
Definition try_finally {A} (body : M A) (fin : M unit) : M A :=
  fun s => match body s with
           | (r, s') => match fin s' with
                        | (inl e, s'') => (inl e, s'')
                        | (inr _, s'') => (r, s'')
                        end
           end.
End Monad.

Arguments M : clear implicits.

Declare Scope js_scope.
Delimit Scope js_scope with js.
Notation "x <- m ;; k" := (bind m (fun x => k))
  (at level 100, m at next level, right associativity) : js_scope.
Notation "m ;; k" := (bind m (fun _ => k))
  (at level 100, right associativity) : js_scope.

End JS.

(* ===================================================================== *)
(** * The retry loop of getSuggestion (src/static/script.js) *)
(* ===================================================================== *)
Module Retry.
Import JS.

(** What the loop does to the outside world, oldest first. *)
Inductive effect : Type :=
| Fetch (k : nat)            (* the k-th call of fetch(apiUrl, ...), k = 1, 2, ... *)
| Sleep (ms : Z)             (* await new Promise(resolve => setTimeout(resolve, ms)) *)
| ConsoleError (e : exn).    (* console.error("Fetch attempt failed:", e) *)

(** The variables of the loop ([attempts], [response], [result]) and the
    world it acts on: the number of requests sent and the effects so far. *)
Record vars : Type := {
  attempts : nat;
  response : option http_response;
  result : value;
  sent : nat;
  trace : list effect
}.

Definition set_attempts (a : nat) (v : vars) : vars :=
  {| attempts := a; response := response v; result := result v;
     sent := sent v; trace := trace v |}.
Definition set_response (r : http_response) (v : vars) : vars :=
  {| attempts := attempts v; response := Some r; result := result v;
     sent := sent v; trace := trace v |}.
Definition set_result (x : value) (v : vars) : vars :=
  {| attempts := attempts v; response := response v; result := x;
     sent := sent v; trace := trace v |}.
Definition log (e : effect) (v : vars) : vars :=
  {| attempts := attempts v; response := response v; result := result v;
     sent := sent v; trace := trace v ++ [e] |}.
Definition send (v : vars) : vars :=
  {| attempts := attempts v; response := response v; result := result v;
     sent := S (sent v); trace := trace v ++ [Fetch (S (sent v))] |}.

(** [let attempts = 0; let response; let result;] *)
Definition start : vars :=
  {| attempts := 0; response := None; result := VUndefined; sent := 0; trace := [] |}.

(** [{ error: { message: "Max retries reached. Could not fetch response." } }] *)
Definition max_retries_message : string :=
  "Max retries reached. Could not fetch response.".
Definition max_retries_result : value :=
  VObj [("error", VObj [("message", VStr max_retries_message)])].

Section Loop.
(** [maxRetries] is the constant 3 and the base delay the literal 1000 in
    the source; the loop is written for any values of the two.  [net k] is
    what the k-th request does. *)
Variable maxRetries : nat.
Variable baseDelayMs : Z.
Variable net : nat -> fetch_result.

(** The [try { ... } catch (error) { console.error(...) }] of one
    iteration; the boolean tells whether [break] was reached. *)
Definition try_block (v : vars) : vars * bool :=
  let v := send v in
  match net (sent v) with
  | NetworkError e =>
      (log (ConsoleError (TypeError e)) v, false)
  | Response r (BodyInvalid e) =>
      (log (ConsoleError (Error e)) (set_response r v), false)
  | Response r (BodyJson j) =>
      (set_result j (set_response r v), ok r)
  end.

(** The rest of the iteration, reached when the loop was not left:
    [attempts++], then the delay [Math.pow(2, attempts) * 1000] or, after
    the last attempt, the fixed error object. *)
Definition after_failure (v : vars) : vars :=
  let v := set_attempts (S (attempts v)) v in
  if attempts v <? maxRetries
  then log (Sleep (2 ^ Z.of_nat (attempts v) * baseDelayMs)) v
  else set_result max_retries_result v.

(** [while (attempts < maxRetries) { ... }], with fuel for the iterations. *)
Fixpoint while (fuel : nat) (v : vars) : option vars :=
  match fuel with
  | O => None
  | S fuel =>
      if attempts v <? maxRetries then
        let '(v', broke) := try_block v in
        if broke then Some v' else while fuel (after_failure v')
      else Some v
  end.

Definition retry_loop : option vars := while (S maxRetries) start.

End Loop.

(** The loop as the source has it. *)
Definition getSuggestion_loop : (nat -> fetch_result) -> option vars :=
  retry_loop 3 1000.

(** ** Reading the outcome of an attempt *)

(** The attempt ends in the [catch] block: [fetch] rejected or
    [response.json()] rejected. *)
Definition throws (r : fetch_result) : bool :=
  match r with
  | NetworkError _ | Response _ (BodyInvalid _) => true
  | Response _ (BodyJson _) => false
  end.

(** A response arrived, its body parsed, and [response.ok] is false. *)
Definition non_success_status (r : fetch_result) : bool :=
  match r with
  | Response rsp (BodyJson _) => negb (ok rsp)
  | _ => false
  end.

Definition fails (r : fetch_result) : bool := throws r || non_success_status r.

(** A response with a success status and the payload parsed from it. *)
Definition success_payload (r : fetch_result) : option value :=
  match r with
  | Response rsp (BodyJson j) => if ok rsp then Some j else None
  | _ => None
  end.

(** What a failed attempt has to tell: the error thrown, or the body of
    the non-success response. *)
Definition failure_detail (r : fetch_result) : value :=
  match r with
  | NetworkError e => VStr e
  | Response _ (BodyInvalid e) => VStr e
  | Response _ (BodyJson j) => j
  end.

(** ** The variables after the loop, as a tagged result

    The source has no result type; this reads its variables the way the
    caller below does: the loop was left by [break] exactly when
    [attempts < maxRetries] still holds. *)
Inductive reason : Type := NetworkFailure | NonOkStatus | MaxRetriesExceeded.

Inductive RequestResult : Type :=
| Success (payload : value)
| Failure (why : reason) (detail : value).

Definition as_result (maxRetries : nat) (v : vars) : RequestResult :=
  if attempts v <? maxRetries then Success (result v)
  else Failure MaxRetriesExceeded (get_opt (get_opt (result v) "error") "message").

(** ** Projections of the trace *)
Definition delays (t : list effect) : list Z :=
  flat_map (fun e => match e with Sleep ms => [ms] | _ => [] end) t.
Definition requests (t : list effect) : list nat :=
  flat_map (fun e => match e with Fetch k => [k] | _ => [] end) t.
(** The trace without the console. *)
Definition schedule (t : list effect) : list effect :=
  flat_map (fun e => match e with ConsoleError _ => [] | _ => [e] end) t.
(** What went to the console. *)
Definition logged (t : list effect) : list exn :=
  flat_map (fun e => match e with ConsoleError x => [x] | _ => [] end) t.

(** ** The three ways an attempt is not a success *)

(** [fetch] rejected: no response at all. *)
Definition fetch_rejects (r : fetch_result) : bool :=
  match r with NetworkError _ => true | Response _ _ => false end.

(** A response arrived, with whatever status, and [response.json()]
    rejected. *)
Definition json_rejects (r : fetch_result) : bool :=
  match r with Response _ (BodyInvalid _) => true | _ => false end.

(** A response arrived and [response.ok] is true, parsed body or not. *)
Definition success_status (r : fetch_result) : bool :=
  match r with Response rsp _ => ok rsp | NetworkError _ => false end.

(** The error an attempt hands to the [catch] block, if it does. *)
Definition thrown (r : fetch_result) : list exn :=
  match r with
  | NetworkError e => [TypeError e]
  | Response _ (BodyInvalid e) => [Error e]
  | Response _ (BodyJson _) => []
  end.

(** ** getSuggestion as a whole *)
Record page : Type := {
  isRunning : bool;
  lastErrorMessage : string;
  currentLanguage : lang;
  document : dom;
  network : list effect
}.

Definition set_isRunning (b : bool) (p : page) : page :=
  {| isRunning := b; lastErrorMessage := lastErrorMessage p;
     currentLanguage := currentLanguage p; document := document p;
     network := network p |}.
Definition on_document (f : dom -> dom) (p : page) : page :=
  {| isRunning := isRunning p; lastErrorMessage := lastErrorMessage p;
     currentLanguage := currentLanguage p; document := f (document p);
     network := network p |}.
Definition set_network (t : list effect) (p : page) : page :=
  {| isRunning := isRunning p; lastErrorMessage := lastErrorMessage p;
     currentLanguage := currentLanguage p; document := document p;
     network := t |}.

Local Open Scope js_scope.

(** [setRunning(state, buttonId, messageKey)] *)
Definition setRunning (state : bool) (buttonId messageKey : string) : M page unit :=
  modify (set_isRunning state) ;;
  l <- read currentLanguage ;;
  modify (on_document (on_element buttonId (fun button =>
    let button := class_toggle "opacity-50" state (set_disabled state button) in
    if state then
      set_content (TLit "<i class='fas fa-spinner fa-spin'></i> " +++ TMsg l messageKey) button
    else if String.eqb buttonId "run-button" then
      set_content (TLit "<i class='fas fa-play'></i> " +++ TMsg l "run-text") button
    else if String.eqb buttonId "suggestion-button" then
      set_content (TLit "<i class='fas fa-magic'></i> " +++ TMsg l "get-suggestion-text") button
    else button))).

Definition box_done (border bg : string) (box : element) : element :=
  class_add bg (class_add border
    (class_remove "animate-pulse" (class_remove "border-primary-color" box))).

(** [candidate && candidate.content?.parts?.[0]?.text], as a condition. *)
Definition has_text (candidate : value) : M page bool :=
  if truthy candidate then
    content <- lift (get candidate "content") ;;
    ret (truthy (get_opt (first_opt (get_opt content "parts")) "text"))
  else ret false.

(** The [try] block after the loop. *)
Definition render (result : value) : M page unit :=
  let candidate := first_opt (get_opt result "candidates") in
  l <- read currentLanguage ;;
  found <- has_text candidate ;;
  if found then
    content <- lift (get candidate "content") ;;
    parts <- lift (get content "parts") ;;
    part <- lift (first parts) ;;
    suggestionText <- lift (get part "text") ;;
    modify (on_document (on_element "suggestion-box" (fun box =>
      box_done "border-green-500" "bg-green-50" (set_content (TVal suggestionText) box))))
  else
    err <- lift (get result "error") ;;
    if truthy err then
      msg <- lift (get err "message") ;;
      modify (on_document (on_element "suggestion-box" (fun box =>
        box_done "border-red-500" "bg-red-50"
          (set_content (TMsg l "error-api" +++ TLit " " +++ TVal msg) box))))
    else ret tt.

(** The [catch] block after the loop. *)
Definition render_failed (error : exn) : M page unit :=
  l <- read currentLanguage ;;
  modify (on_document (on_element "suggestion-box" (fun box =>
    box_done "border-red-500" "bg-red-50"
      (set_content (TMsg l "error-api" +++ TLit " " +++ TLit (message error)) box)))).

(** [async function getSuggestion()], for any bound and base delay. *)
Definition getSuggestion (maxRetries : nat) (baseDelayMs : Z)
    (net : nat -> fetch_result) : M page unit :=
  running <- read isRunning ;;
  last <- read lastErrorMessage ;;
  if running || String.eqb last "" then ret tt
  else
    setRunning true "suggestion-button" "getting-suggestion" ;;
    l <- read currentLanguage ;;
    modify (on_document (on_element "suggestion-box" (fun box =>
      class_add "animate-pulse" (class_add "border-primary-color"
        (class_remove "border-gray-400" (class_remove "border-dashed"
          (set_content (TLit "<i class='fas fa-spinner fa-spin text-primary-color'></i> "
                        +++ TMsg l "getting-suggestion") box))))))) ;;
    match retry_loop maxRetries baseDelayMs net with
    | None => throw (Error "the loop did not end")
    | Some v =>
        modify (set_network (trace v)) ;;
        try_finally
          (try_catch (render (result v)) render_failed)
          (setRunning false "suggestion-button" "getting-suggestion")
    end.

End Retry.

(* ===================================================================== *)
(** * Autosave: saveEditorContent and setupEditorPersistence
      (src/static/script.js) *)
(* ===================================================================== *)
Module Sync.

Inductive console_line : Type :=
| SavedSuccessfully      (* console.log("Editor content saved successfully.") *)
| ErrorSaving            (* console.error("Error saving document:", e) *)
| LoadedFromFirestore    (* console.log("Editor content loaded from Firestore.") *)
| CannotSetUp.           (* console.log("Cannot set up persistence: ...") *)

(** A pending [setTimeout(saveEditorContent, ...)]: its id and the time it
    is due, in milliseconds. *)
Record timer : Type := { tid : nat; deadline : nat }.

(** One call [setDoc(dataRef, { code, timestamp }, { merge: true })]. *)
Record write : Type := { started : nat; code : string }.

(** What the snapshot listener is handed: [docSnap.exists()] is false, or
    the document with its [code] field when it has one. *)
Inductive snapshot : Type :=
| NoDocument
| Document (savedCode : option string).

(** The variables of the script ([db], [userId], the editor's text, the
    [saveTimeout] of the closure) and the world around them: the clock, the
    browser's pending timers, the [setDoc] calls and which of them are not
    settled yet, and the code stored in the remote document, if it exists. *)
Record state : Type := {
  now : nat;
  db : bool;
  userId : option string;
  editor : string;
  subscribed : bool;
  listening : bool;
  saveTimeout : option nat;
  timers : list timer;
  next_timer : nat;
  writes : list write;
  outstanding : list nat;
  remote : option string;
  console : list console_line
}.

Definition set_now (x : nat) (st : state) : state :=
  {| now := x; db := db st; userId := userId st; editor := editor st;
     subscribed := subscribed st; listening := listening st;
     saveTimeout := saveTimeout st; timers := timers st;
     next_timer := next_timer st; writes := writes st;
     outstanding := outstanding st; remote := remote st;
     console := console st |}.
Definition set_userId (x : option string) (st : state) : state :=
  {| now := now st; db := db st; userId := x; editor := editor st;
     subscribed := subscribed st; listening := listening st;
     saveTimeout := saveTimeout st; timers := timers st;
     next_timer := next_timer st; writes := writes st;
     outstanding := outstanding st; remote := remote st;
     console := console st |}.
Definition set_editor (x : string) (st : state) : state :=
  {| now := now st; db := db st; userId := userId st; editor := x;
     subscribed := subscribed st; listening := listening st;
     saveTimeout := saveTimeout st; timers := timers st;
     next_timer := next_timer st; writes := writes st;
     outstanding := outstanding st; remote := remote st;
     console := console st |}.
Definition set_subscribed (x : bool) (st : state) : state :=
  {| now := now st; db := db st; userId := userId st; editor := editor st;
     subscribed := x; listening := listening st;
     saveTimeout := saveTimeout st; timers := timers st;
     next_timer := next_timer st; writes := writes st;
     outstanding := outstanding st; remote := remote st;
     console := console st |}.
Definition set_listening (x : bool) (st : state) : state :=
  {| now := now st; db := db st; userId := userId st; editor := editor st;
     subscribed := subscribed st; listening := x;
     saveTimeout := saveTimeout st; timers := timers st;
     next_timer := next_timer st; writes := writes st;
     outstanding := outstanding st; remote := remote st;
     console := console st |}.
Definition set_saveTimeout (x : option nat) (st : state) : state :=
  {| now := now st; db := db st; userId := userId st; editor := editor st;
     subscribed := subscribed st; listening := listening st;
     saveTimeout := x; timers := timers st; next_timer := next_timer st;
     writes := writes st; outstanding := outstanding st; remote := remote st;
     console := console st |}.
Definition set_timers (x : list timer) (st : state) : state :=
  {| now := now st; db := db st; userId := userId st; editor := editor st;
     subscribed := subscribed st; listening := listening st;
     saveTimeout := saveTimeout st; timers := x; next_timer := next_timer st;
     writes := writes st; outstanding := outstanding st; remote := remote st;
     console := console st |}.
Definition set_next_timer (x : nat) (st : state) : state :=
  {| now := now st; db := db st; userId := userId st; editor := editor st;
     subscribed := subscribed st; listening := listening st;
     saveTimeout := saveTimeout st; timers := timers st; next_timer := x;
     writes := writes st; outstanding := outstanding st; remote := remote st;
     console := console st |}.
Definition set_writes (x : list write) (st : state) : state :=
  {| now := now st; db := db st; userId := userId st; editor := editor st;
     subscribed := subscribed st; listening := listening st;
     saveTimeout := saveTimeout st; timers := timers st;
     next_timer := next_timer st; writes := x; outstanding := outstanding st;
     remote := remote st; console := console st |}.
Definition set_outstanding (x : list nat) (st : state) : state :=
  {| now := now st; db := db st; userId := userId st; editor := editor st;
     subscribed := subscribed st; listening := listening st;
     saveTimeout := saveTimeout st; timers := timers st;
     next_timer := next_timer st; writes := writes st; outstanding := x;
     remote := remote st; console := console st |}.
Definition set_remote (x : option string) (st : state) : state :=
  {| now := now st; db := db st; userId := userId st; editor := editor st;
     subscribed := subscribed st; listening := listening st;
     saveTimeout := saveTimeout st; timers := timers st;
     next_timer := next_timer st; writes := writes st;
     outstanding := outstanding st; remote := x; console := console st |}.
Definition set_console (x : list console_line) (st : state) : state :=
  {| now := now st; db := db st; userId := userId st; editor := editor st;
     subscribed := subscribed st; listening := listening st;
     saveTimeout := saveTimeout st; timers := timers st;
     next_timer := next_timer st; writes := writes st;
     outstanding := outstanding st; remote := remote st; console := x |}.

Definition print (l : console_line) (st : state) : state :=
  set_console (console st ++ [l]) st.

(** [!userId] is false for a non-empty string only. *)
Definition user_known (u : option string) : bool :=
  match u with
  | Some uid => negb (String.eqb uid "")
  | None => false
  end.

(** [db && userId] *)
Definition ready (st : state) : bool := db st && user_known (userId st).

(** ** Timers *)

(** [setTimeout(saveEditorContent, delay)]: the id of the new timer. *)
Definition setTimeout (delay : nat) (st : state) : nat * state :=
  let id := next_timer st in
  (id, set_next_timer (S id)
         (set_timers (timers st ++ [{| tid := id; deadline := now st + delay |}]) st)).

(** [clearTimeout(id)]: nothing happens for [undefined] or for an id that
    is not pending. *)
Definition clearTimeout (id : option nat) (st : state) : state :=
  match id with
  | None => st
  | Some i => set_timers (List.filter (fun t => negb (tid t =? i)) (timers st)) st
  end.

(** ** The functions of the script *)

(** [async function saveEditorContent()], up to the [await]: the call of
    [setDoc] with the editor's text of this moment. *)
Definition saveEditorContent (st : state) : state :=
  if negb (ready st) then st
  else
    let content := editor st in
    set_outstanding (outstanding st ++ [length (writes st)])
      (set_writes (writes st ++ [{| started := now st; code := content |}]) st).

(** The rest of [saveEditorContent], when the promise of write [w]
    settles: the remote document then holds the code (merged into it, or
    the document is made), or the error is logged. *)
Definition settle (w : nat) (resolved : bool) (st : state) : state :=
  if existsb (Nat.eqb w) (outstanding st) then
    let st := set_outstanding (List.filter (fun i => negb (i =? w)) (outstanding st)) st in
    if resolved then
      match writes st !! w with
      | Some wr => print SavedSuccessfully (set_remote (Some (code wr)) st)
      | None => st
      end
    else print ErrorSaving st
  else st.

(** The listener of [editor.session.on('change', ...)]. *)
Definition on_change (st : state) : state :=
  let st := clearTimeout (saveTimeout st) st in
  let '(id, st) := setTimeout 2000 st in
  set_saveTimeout (Some id) st.

Section Widget.
(** Whether the editor widget reports a programmatic [setValue] to the
    listeners of the session's [change] event, as it reports what the user
    types.  The widget is not part of the repository. *)
Variable setValue_notifies : bool.

(** [editor.setValue(savedCode, 1)] *)
Definition setValue (savedCode : string) (st : state) : state :=
  let st := set_editor savedCode st in
  if setValue_notifies && listening st then on_change st else st.

(** The listener of [onSnapshot(dataRef, ...)]. *)
Definition on_snapshot (docSnap : snapshot) (st : state) : state :=
  match docSnap with
  | Document (Some savedCode) =>
      if negb (String.eqb savedCode "") then
        if negb (String.eqb (editor st) savedCode)
        then print LoadedFromFirestore (setValue savedCode st)
        else st
      else st
  | Document None | NoDocument => st
  end.

End Widget.

(** [function setupEditorPersistence()]: a fresh [saveTimeout], both
    listeners, and the first save. *)
Definition setupEditorPersistence (st : state) : state :=
  if negb (ready st) then print CannotSetUp st
  else
    let st := set_subscribed true st in
    let st := set_listening true (set_saveTimeout None st) in
    saveEditorContent st.

Definition nl : string := String (Ascii.ascii_of_nat 10) "".
Definition dq : string := String (Ascii.ascii_of_nat 34) "".

(** The snippet [initializeAceEditor] puts into the editor. *)
Definition default_code : string :=
  "def greet(name):" +:+ nl +:+ "    return f" +:+ dq +:+ "Hello, {name}!" +:+ dq
  +:+ nl +:+ nl +:+ "print(greet(" +:+ dq +:+ "World" +:+ dq +:+ "))".

(** [setupApplication()], as far as the editor goes. *)
Definition setupApplication (st : state) : state := set_editor default_code st.

(** The page at time [t0] once [initializeAppAndAuth] has run with a
    configuration: [db] is set, nobody is signed in yet. *)
Definition page_loaded (t0 : nat) (remote0 : option string) : state :=
  {| now := t0; db := true; userId := None; editor := "";
     subscribed := false; listening := false; saveTimeout := None;
     timers := []; next_timer := 1; writes := []; outstanding := [];
     remote := remote0; console := [] |}.

(** The callback of [onAuthStateChanged] for a signed-in user. *)
Definition signed_in (uid : string) (st : state) : state :=
  setupEditorPersistence (setupApplication (set_userId (Some uid) st)).

(** ** The event loop *)

Inductive event : Type :=
| Edit (text : string)               (* the user changes the editor's text *)
| Snapshot (docSnap : snapshot)      (* the store delivers a snapshot *)
| Wait (ms : nat)                    (* time passes *)
| Settle (w : nat) (resolved : bool).  (* the promise of write w settles *)

(** Timers in the order they fire: by deadline, the older first among
    equal deadlines. *)
Fixpoint insert_by_deadline (t : timer) (l : list timer) : list timer :=
  match l with
  | [] => [t]
  | u :: l' => if deadline t <? deadline u then t :: l
               else u :: insert_by_deadline t l'
  end.

Definition by_deadline (l : list timer) : list timer :=
  fold_right insert_by_deadline [] (rev l).

(** A timer fires: its callback runs at its deadline. *)
Definition fire (st : state) (t : timer) : state :=
  saveEditorContent (set_now (deadline t) st).

(** [ms] milliseconds pass: the timers due by then fire, in order. *)
Definition wait (ms : nat) (st : state) : state :=
  let until := now st + ms in
  let due := List.filter (fun t => deadline t <=? until) (timers st) in
  let later := List.filter (fun t => negb (deadline t <=? until)) (timers st) in
  set_now until (fold_left fire (by_deadline due) (set_timers later st)).

Definition step (setValue_notifies : bool) (e : event) (st : state) : state :=
  match e with
  | Edit text =>
      let st := set_editor text st in
      if listening st then on_change st else st
  | Snapshot docSnap =>
      if subscribed st then on_snapshot setValue_notifies docSnap st else st
  | Wait ms => wait ms st
  | Settle w resolved => settle w resolved st
  end.

Definition run (setValue_notifies : bool) (es : list event) (st : state) : state :=
  fold_left (fun st e => step setValue_notifies e st) es st.

(** The states of one store: set up for a signed-in user, then any events. *)
Inductive reachable (setValue_notifies : bool) : state -> Prop :=
| reach_setup t0 uid remote0 :
    uid <> "" -> reachable setValue_notifies (signed_in uid (page_loaded t0 remote0))
| reach_step e st :
    reachable setValue_notifies st ->
    reachable setValue_notifies (step setValue_notifies e st).

(** [n] edits, each followed by a pause. *)
Fixpoint burst (edits : list (string * nat)) : list event :=
  match edits with
  | [] => []
  | (text, pause) :: edits => Edit text :: Wait pause :: burst edits
  end.

End Sync.

(* ===================================================================== *)
(** * The run-code handlers of the five pages that post to the server *)
(* ===================================================================== *)
Module Run.
Import JS.

Record page : Type := {
  document : dom;
  console : list exn           (* what console.error was given *)
}.

Definition on_document (f : dom -> dom) (p : page) : page :=
  {| document := f (document p); console := console p |}.
Definition console_error (e : exn) (p : page) : page :=
  {| document := document p; console := console p ++ [e] |}.

Local Open Scope js_scope.

(** [el.textContent = t] (or [el.value = t]) for the element of id [id] *)
Definition set_text (id : string) (t : text) : M page unit :=
  modify (on_document (on_element id (set_content t))).
Definition set_class_name (id : string) (cs : list string) : M page unit :=
  modify (on_document (on_element id (set_classes cs))).
Definition add_class (id c : string) : M page unit :=
  modify (on_document (on_element id (class_add c))).
Definition set_button (id : string) (off : bool) : M page unit :=
  modify (on_document (on_element id (set_disabled off))).
Definition set_style_color (id c : string) : M page unit :=
  modify (on_document (on_element id (set_color c))).

(** [await fetch(...)] and [await response.json()], given what the
    network does with the request. *)
Definition fetch (r : fetch_result) : M page (http_response * body_result) :=
  match r with
  | NetworkError e => throw (TypeError e)
  | Response rsp body => ret (rsp, body)
  end.
Definition json (response : http_response * body_result) : M page value :=
  match snd response with
  | BodyJson v => ret v
  | BodyInvalid e => throw (Error e)
  end.

Definition nl : string := String (Ascii.ascii_of_nat 10) "".

Definition connection_error : text :=
  TLit "Internal Error: Could not connect to the server or unexpected response.".

(** ** src/script.js: the click handler of the run button *)
Definition click_structured (r : fetch_result) : M page unit :=
  set_text "output-display" (TLit "Running code...") ;;
  set_class_name "output-display" [] ;;
  set_text "status-message" (TLit "Executing...") ;;
  set_button "run-button" true ;;
  try_finally
    (try_catch
       (response <- fetch r ;;
        data <- json response ;;
        error <- lift (get data "error") ;;
        if truthy error then
          type <- lift (get error "type") ;;
          message <- lift (get error "message") ;;
          let errorText :=
            TLit "Error (" +++ TVal type +++ TLit "): " +++ TVal message +++ TLit nl in
          suggestion <- lift (get error "suggestion") ;;
          let errorText :=
            if truthy suggestion then errorText +++ TLit nl +++ TVal suggestion
            else errorText in
          output <- lift (get data "output") ;;
          (if truthy output
           then set_text "output-display" (TVal output +++ TLit nl +++ errorText)
           else set_text "output-display" errorText) ;;
          add_class "output-display" "error" ;;
          set_text "status-message" (TLit "Finished with Errors")
        else
          output <- lift (get data "output") ;;
          set_text "output-display" (TVal output) ;;
          add_class "output-display" "success" ;;
          set_text "status-message" (TLit "Execution Complete"))
       (fun _ =>
          set_text "output-display" connection_error ;;
          add_class "output-display" "error" ;;
          set_text "status-message" (TLit "Connection Error")))
    (set_button "run-button" false).

(** ** src/unnamed/part_000: the click handler of the run button *)
Definition click_plain (r : fetch_result) : M page unit :=
  set_text "output-display" (TLit "Running code...") ;;
  set_class_name "output-display" [] ;;
  set_text "status-message" (TLit "Executing...") ;;
  set_button "run-button" true ;;
  try_finally
    (try_catch
       (response <- fetch r ;;
        data <- json response ;;
        error <- lift (get data "error") ;;
        if truthy error then
          set_text "output-display" (TVal error) ;;
          add_class "output-display" "error" ;;
          set_text "status-message" (TLit "Finished with Errors")
        else
          output <- lift (get data "output") ;;
          set_text "output-display" (TVal output) ;;
          add_class "output-display" "success" ;;
          set_text "status-message" (TLit "Execution Complete"))
       (fun _ =>
          set_text "output-display" connection_error ;;
          add_class "output-display" "error" ;;
          set_text "status-message" (TLit "Connection Error")))
    (set_button "run-button" false).

(** ** src/unnamed/part_001: cleanError and runCode *)

(** [hay.includes(needle)] on strings *)
Definition includes (needle hay : string) : bool :=
  match String.index 0 needle hay with Some _ => true | None => false end.

(** [errorStr.includes(needle)] for a value: the substring test on a
    string, the membership test on an array; other values have no such
    method.  It is called on truthy values only. *)
Definition value_includes (errorStr : value) (needle : string) : exn + bool :=
  match errorStr with
  | VStr s => inr (includes needle s)
  | VArr items =>
      inr (existsb (fun x => match x with VStr s => String.eqb s needle | _ => false end)
             items)
  | _ => inl (TypeError "errorStr.includes is not a function")
  end.

Definition suggest_name : string :=
  "Suggestion: A variable or function was used but not defined. Check for spelling errors or missing initialization.".
Definition suggest_syntax : string :=
  "Suggestion: Check the line number mentioned for incorrect syntax (e.g., missing colon, unmatched parentheses, or incorrect indentation).".
Definition suggest_type : string :=
  "Suggestion: An operation was attempted on an incompatible type (e.g., adding a string to a number). Check data types.".

(** [function cleanError(errorStr)] *)
Definition cleanError (errorStr : value) : exn + text :=
  if negb (truthy errorStr) then inr (TLit "An unknown error occurred during execution.")
  else
    match value_includes errorStr "Execution timed out" with
    | inl e => inl e
    | inr true =>
        inr (TLit "Timeout Error: Code execution exceeded the 5 second limit (likely an infinite loop).")
    | inr false =>
    match value_includes errorStr "EOFError: EOF when reading a line" with
    | inl e => inl e
    | inr true =>
        inr (TLit "Input Error: Code requested input() but the 'User Input' box was empty. Please provide all necessary input values.")
    | inr false =>
    match value_includes errorStr "NameError" with
    | inl e => inl e
    | inr true => inr (TVal errorStr +++ TLit (nl +:+ nl +:+ suggest_name))
    | inr false =>
    match value_includes errorStr "SyntaxError" with
    | inl e => inl e
    | inr true => inr (TVal errorStr +++ TLit (nl +:+ nl +:+ suggest_syntax))
    | inr false =>
    match value_includes errorStr "TypeError" with
    | inl e => inl e
    | inr true => inr (TVal errorStr +++ TLit (nl +:+ nl +:+ suggest_type))
    | inr false => inr (TVal errorStr)
    end end end end end.

(** [async function runCode()] of the page with line numbers *)
Definition runCode_gutter (r : fetch_result) : M page unit :=
  set_text "output-area" (TLit "Executing code...") ;;
  set_class_name "output-area" [] ;;
  set_button "run-button" true ;;
  try_finally
    (try_catch
       (response <- fetch r ;;
        result <- json response ;;
        if ok (fst response) then
          error <- lift (get result "error") ;;
          if truthy error then
            cleaned <- lift (cleanError error) ;;
            set_text "output-area" cleaned ;;
            set_class_name "output-area" ["error"]
          else
            output <- lift (get result "output") ;;
            set_text "output-area" (TVal output) ;;
            set_class_name "output-area" []
        else
          error <- lift (get result "error") ;;
          set_text "output-area"
            (TLit "Server Error: " +++ TVal (or_else error (VStr (statusText (fst response))))) ;;
          set_class_name "output-area" ["error"])
       (fun _ =>
          set_text "output-area"
            (TLit "Network Error: Could not connect to the execution environment.") ;;
          set_class_name "output-area" ["error"]))
    (set_button "run-button" false).

(** ** src/static/script.js, first page: displayResult and handleRunCode *)

(** [function displayResult(output, error)] *)
Definition displayResult (output error : value) : M page unit :=
  if truthy error then
    set_text "output-area" (TLit "Error: " +++ TVal error) ;;
    set_style_color "output-area" "#f44336"
  else
    set_text "output-area" (TVal output) ;;
    set_style_color "output-area" "#cccccc".

(** [async function handleRunCode(code, input)]; the click handler calls
    it and does nothing else. *)
Definition handleRunCode (r : fetch_result) : M page unit :=
  try_catch
    (set_text "output-area" (TLit "Running code...") ;;
     set_style_color "output-area" "#8ab4f8" ;;
     response <- fetch r ;;
     (if negb (ok (fst response))
      then throw (Error ("Server Error: " +:+ statusText (fst response)))
      else ret tt) ;;
     data <- json response ;;
     error <- lift (get data "error") ;;
     if truthy error then displayResult (VStr "") error
     else
       output <- lift (get data "output") ;;
       displayResult output VNull)
    (fun e =>
       displayResult (VStr "") (VStr ("Network or Unexpected Error: " +:+ message e))).

(** ** src/static/script.js, third page: updateOutput and runCode *)

(** [function updateOutput(content, isError = false)] *)
Definition updateOutput (content : text) (isError : bool) : M page unit :=
  set_text "output" content ;;
  modify (on_document (on_element "output" (class_toggle "error" isError))).

Definition selected (analysis : string) (selectedAnalyses : list string) : bool :=
  existsb (String.eqb analysis) selectedAnalyses.

(** One of the four [if (selectedAnalyses.includes(a) && result.analysis_results.a)]. *)
Definition append_analysis (selectedAnalyses : list string) (analysis_results : value)
    (analysis title : string) (outputText : text) : M page text :=
  if selected analysis selectedAnalyses then
    x <- lift (get analysis_results analysis) ;;
    if truthy x
    then ret (outputText +++ TLit (nl +:+ nl +:+ "[ " +:+ title +:+ " ]:" +:+ nl) +++ TVal x)
    else ret outputText
  else ret outputText.

(** [async function runCode()] of the page with the analysis buttons;
    [selectedAnalyses] lists the [data-analysis] of the active ones.  The
    Bengali literals of this page are written [TMsg Bn key]: "executing",
    "running", "result-header", "analysis-header", "error-header" and
    "network-error". *)
Definition runCode_analyses (selectedAnalyses : list string) (r : fetch_result)
    : M page unit :=
  updateOutput (TMsg Bn "executing") false ;;
  set_button "run-button" true ;;
  set_text "run-button" (TMsg Bn "running") ;;
  try_finally
    (try_catch
       (response <- fetch r ;;
        result <- json response ;;
        if ok (fst response) then
          output <- lift (get result "output") ;;
          let outputText := TMsg Bn "result-header" +++ TLit nl +++ TVal output in
          analysis_results <- lift (get result "analysis_results") ;;
          outputText <-
            (if truthy analysis_results && (0 <? length selectedAnalyses) then
               let outputText := outputText +++ TLit (nl +:+ nl) +++ TMsg Bn "analysis-header" in
               outputText <- append_analysis selectedAnalyses analysis_results
                               "lexical" "Lexical Analysis" outputText ;;
               outputText <- append_analysis selectedAnalyses analysis_results
                               "syntax" "Syntax Analysis" outputText ;;
               outputText <- append_analysis selectedAnalyses analysis_results
                               "semantic" "Semantic Analysis" outputText ;;
               append_analysis selectedAnalyses analysis_results
                 "icg" "Intermediate Code Generation (ICG)" outputText
             else ret outputText) ;;
          updateOutput outputText false
        else
          error <- lift (get result "error") ;;
          details <- lift (get result "details") ;;
          updateOutput
            (TMsg Bn "error-header" +++ TVal (or_else error (VStr "Server Execution Failed"))
             +++ TLit (" ---" +:+ nl) +++ TVal (or_else details (VStr "")))
            true)
       (fun e =>
          modify (console_error e) ;;
          updateOutput (TMsg Bn "network-error") true))
    (set_button "run-button" false ;;
     set_text "run-button" (TLit "Run Code")).

(** ** src/unnamed/part_001: the line-number gutter *)

(** The number of newline characters of a text. *)
Fixpoint newlines (s : string) : nat :=
  match s with
  | EmptyString => 0
  | String c s' => (if Ascii.eqb c (Ascii.ascii_of_nat 10) then 1 else 0) + newlines s'
  end.

(** [code.split('\n').length] *)
Definition line_count (code : string) : nat := S (newlines code).

(** A number as JavaScript writes it into a string. *)
Definition decimal (i : nat) : string := NilEmpty.string_of_uint (Nat.to_uint i).

(** [for (let i = ...; i <= lines; i++) lineNumbersText += i + '\n';] with
    [todo] iterations left. *)
Fixpoint number_lines (i todo : nat) (lineNumbersText : string) : string :=
  match todo with
  | O => lineNumbersText
  | S todo => number_lines (S i) todo (lineNumbersText +:+ decimal i +:+ nl)
  end.

(** [function updateLineNumbers()]: the text put into the gutter for the
    code in the editor. *)
Definition updateLineNumbers (code : string) : string :=
  number_lines 1 (line_count code) "".

End Run.

(* ===================================================================== *)
(** * Facts about the retry loop *)
(* ===================================================================== *)
Module RetryFacts.
Import JS Retry.

#[local] Arguments Nat.ltb : simpl never.

(** The schedule the loop follows from attempt [a + 1] on, for [n]
    failing attempts: a request, then the delay unless it was the last. *)
Definition plan (N : nat) (base : Z) (a n : nat) : list effect :=
  flat_map (fun k => Fetch k :: if k <? N then [Sleep (2 ^ Z.of_nat k * base)] else [])
           (seq (S a) n).

Lemma schedule_app t u : schedule (t ++ u) = schedule t ++ schedule u.
Proof. apply flat_map_app. Qed.

Lemma schedule_fetch k : schedule [Fetch k] = [Fetch k].
Proof. reflexivity. Qed.

Lemma schedule_sleep ms : schedule [Sleep ms] = [Sleep ms].
Proof. reflexivity. Qed.

Lemma schedule_console e : schedule [ConsoleError e] = [].
Proof. reflexivity. Qed.

#[local] Arguments schedule : simpl never.

Lemma plan_S N base a n :
  plan N base a (S n) =
  (Fetch (S a) :: if S a <? N then [Sleep (2 ^ Z.of_nat (S a) * base)] else [])
    ++ plan N base (S a) n.
Proof. reflexivity. Qed.

Lemma fails_no_payload r : fails r = true <-> success_payload r = None.
Proof.
  destruct r as [e | rsp [j | e]]; cbn; try tauto.
  destruct (ok rsp); cbn; split; congruence.
Qed.

Lemma payload_not_fails r p : success_payload r = Some p -> fails r = false.
Proof.
  intros H. destruct (fails r) eqn:E; [| reflexivity].
  apply fails_no_payload in E. congruence.
Qed.

Section TryBlock.
Variables (N : nat) (base : Z) (net : nat -> fetch_result).

Lemma try_block_fails v :
  fails (net (S (sent v))) = true ->
  exists v', try_block net v = (v', false)
    /\ attempts v' = attempts v /\ sent v' = S (sent v)
    /\ schedule (trace v') = schedule (trace v) ++ [Fetch (S (sent v))].
Proof.
  intros H. unfold try_block. cbn.
  destruct (net (S (sent v))) as [e | rsp [j | e]]; cbn in *.
  - eexists; repeat split. cbn.
    now rewrite !schedule_app, schedule_console, app_nil_r.
  - destruct (ok rsp); cbn in H; [discriminate |].
    eexists; repeat split. cbn. now rewrite schedule_app.
  - eexists; repeat split. cbn.
    now rewrite !schedule_app, schedule_console, app_nil_r.
Qed.

Lemma try_block_succeeds v p :
  success_payload (net (S (sent v))) = Some p ->
  exists v', try_block net v = (v', true)
    /\ attempts v' = attempts v /\ sent v' = S (sent v) /\ result v' = p
    /\ trace v' = trace v ++ [Fetch (S (sent v))].
Proof.
  intros H. unfold try_block. cbn.
  destruct (net (S (sent v))) as [e | rsp [j | e]]; cbn in *; try discriminate.
  destruct (ok rsp); [| discriminate]. injection H as ->.
  eexists; repeat split.
Qed.

Lemma after_failure_spec v :
  let v' := after_failure N base v in
  attempts v' = S (attempts v) /\ sent v' = sent v
  /\ schedule (trace v') = schedule (trace v)
       ++ (if S (attempts v) <? N then [Sleep (2 ^ Z.of_nat (S (attempts v)) * base)] else [])
  /\ (N <= S (attempts v) -> result v' = max_retries_result).
Proof.
  unfold after_failure.
  change (attempts (set_attempts (S (attempts v)) v)) with (S (attempts v)).
  destruct (S (attempts v) <? N) eqn:E; cbn.
  - repeat split.
    + now rewrite schedule_app.
    + apply Nat.ltb_lt in E. lia.
  - repeat split. now rewrite app_nil_r.
Qed.

(** The loop from a state with [n] attempts left: it ends, either having
    used all of them, each one failing, or at the first attempt [k] that
    brings a payload with a success status. *)
Lemma while_shape : forall n v fuel,
  attempts v + n = N -> sent v = attempts v -> n < fuel ->
  exists v', while N base net fuel v = Some v' /\
    ((attempts v' = N /\ sent v' = N
      /\ (forall j, attempts v < j <= N -> fails (net j) = true)
      /\ schedule (trace v') = schedule (trace v) ++ plan N base (attempts v) n
      /\ (0 < n -> result v' = max_retries_result)
      /\ (n = 0 -> v' = v))
     \/ (exists k, attempts v < k <= N /\ sent v' = k /\ attempts v' = k - 1
          /\ (forall j, attempts v < j < k -> fails (net j) = true)
          /\ success_payload (net k) = Some (result v')
          /\ schedule (trace v') =
               schedule (trace v) ++ plan N base (attempts v) (k - 1 - attempts v)
                 ++ [Fetch k])).
Proof.
  induction n as [| n IH]; intros v fuel Hn Hs Hfuel;
    (destruct fuel as [| fuel]; [lia |]); cbn [while].
  - replace (attempts v <? N) with false by (symmetry; apply Nat.ltb_ge; lia).
    exists v. split; [reflexivity |]. left.
    repeat split; try lia. unfold plan; cbn. now rewrite app_nil_r.
  - replace (attempts v <? N) with true by (symmetry; apply Nat.ltb_lt; lia).
    destruct (success_payload (net (S (sent v)))) as [p |] eqn:Hp.
    + destruct (try_block_succeeds v p Hp) as (v1 & -> & Ha & Hs1 & Hr & Ht).
      exists v1. split; [reflexivity |]. right. exists (S (attempts v)).
      repeat split; try lia.
      * rewrite <- Hs, Hr. exact Hp.
      * replace (S (attempts v) - 1 - attempts v) with 0 by lia.
        rewrite Ht, schedule_app, schedule_fetch, Hs. reflexivity.
    + apply fails_no_payload in Hp.
      destruct (try_block_fails v Hp) as (v1 & -> & Ha & Hs1 & Ht).
      destruct (after_failure_spec v1) as (Ha2 & Hs2 & Ht2 & Hr2).
      set (v2 := after_failure N base v1) in *.
      destruct (IH v2 fuel) as (v' & -> & Hv'); [lia | lia | lia |].
      exists v'. split; [reflexivity |].
      destruct Hv' as [(A & B & C & D & E & F) | (k & K & B & A & C & P & D)].
      * left. repeat split; try assumption.
        -- intros j Hj. destruct (decide (j = S (attempts v))) as [-> |].
           ++ rewrite <- Hs. exact Hp.
           ++ apply C. lia.
        -- rewrite D, Ht2, Ht, plan_S, Ha2, Ha, Hs, <- !app_assoc. reflexivity.
        -- intros _. destruct n as [| n].
           ++ rewrite (F eq_refl). apply Hr2. lia.
           ++ apply E. lia.
        -- discriminate.
      * right. exists k. repeat split; try assumption; try lia.
        -- intros j Hj. destruct (decide (j = S (attempts v))) as [-> |].
           ++ rewrite <- Hs. exact Hp.
           ++ apply C. lia.
        -- replace (k - 1 - attempts v) with (S (k - 1 - S (attempts v))) by lia.
           rewrite D, Ht2, Ht, plan_S, Ha2, Ha, Hs, <- !app_assoc. reflexivity.
Qed.

End TryBlock.

(** ** Requests and delays of a schedule *)

Lemma requests_app t u : requests (t ++ u) = requests t ++ requests u.
Proof. apply flat_map_app. Qed.

Lemma delays_app t u : delays (t ++ u) = delays t ++ delays u.
Proof. apply flat_map_app. Qed.

Lemma requests_schedule t : requests (schedule t) = requests t.
Proof.
  induction t as [| e t IH]; [reflexivity |].
  change (e :: t) with ([e] ++ t).
  rewrite schedule_app, !requests_app, IH. destruct e; reflexivity.
Qed.

Lemma delays_schedule t : delays (schedule t) = delays t.
Proof.
  induction t as [| e t IH]; [reflexivity |].
  change (e :: t) with ([e] ++ t).
  rewrite schedule_app, !delays_app, IH. destruct e; reflexivity.
Qed.

Lemma requests_plan N base : forall n a, requests (plan N base a n) = seq (S a) n.
Proof.
  induction n as [| n IH]; intros a; [reflexivity |].
  rewrite plan_S, requests_app, IH. destruct (S a <? N); reflexivity.
Qed.

Definition backoff (base : Z) (k : nat) : Z := (base * 2 ^ Z.of_nat k)%Z.

Lemma delays_plan_before N base : forall n a,
  a + n < N -> delays (plan N base a n) = map (backoff base) (seq (S a) n).
Proof.
  induction n as [| n IH]; intros a H; [reflexivity |].
  rewrite plan_S, delays_app, IH by lia.
  replace (S a <? N) with true by (symmetry; apply Nat.ltb_lt; lia).
  cbn. unfold backoff at 1. now rewrite Z.mul_comm.
Qed.

Lemma plan_app N base a n m :
  plan N base a (n + m) = plan N base a n ++ plan N base (a + n) m.
Proof.
  unfold plan. rewrite seq_app, flat_map_app.
  now replace (S a + n) with (S (a + n)) by lia.
Qed.

Lemma delays_plan_all N base n a :
  a + n = N -> delays (plan N base a n) = map (backoff base) (seq (S a) (n - 1)).
Proof.
  intros H. destruct n as [| n]; [reflexivity |].
  replace (S n) with (n + 1) at 1 by lia.
  rewrite plan_app, delays_app, delays_plan_before by lia.
  replace (S n - 1) with n by lia.
  rewrite plan_S.
  replace (S (a + n) <? N) with false by (symmetry; apply Nat.ltb_ge; lia).
  cbn. now rewrite app_nil_r.
Qed.

(** ** The loop as a whole *)

(** The loop ends, whatever the network does.  It has sent requests
    1, ..., [sent v], and either used all [N] attempts, each one failing,
    or stopped at the first payload that came with a success status. *)
Lemma retry_loop_outcome (N : nat) (base : Z) (net : nat -> fetch_result) :
  exists v, retry_loop N base net = Some v
    /\ requests (trace v) = seq 1 (sent v)
    /\ ((sent v = N /\ attempts v = N
         /\ (forall j, 1 <= j <= N -> fails (net j) = true)
         /\ (1 <= N -> result v = max_retries_result)
         /\ schedule (trace v) = plan N base 0 N)
        \/ (1 <= sent v <= N /\ attempts v = sent v - 1
            /\ (forall j, 1 <= j < sent v -> fails (net j) = true)
            /\ success_payload (net (sent v)) = Some (result v)
            /\ schedule (trace v) = plan N base 0 (sent v - 1) ++ [Fetch (sent v)])).
Proof.
  destruct (while_shape N base net N start (S N)) as (v & Hv & H);
    [reflexivity | reflexivity | lia |].
  exists v. split; [exact Hv |]. clear Hv.
  change (attempts start) with 0 in H.
  change (schedule (trace start)) with (@nil effect) in H.
  destruct H as [(A & B & C & D & E & _) | (k & K & B & A & C & P & D)];
    cbn [app] in D.
  - split.
    + rewrite <- requests_schedule, D, requests_plan, B. reflexivity.
    + left. repeat split; try assumption;
        intros; first [apply C; lia | apply E; lia].
  - rewrite Nat.sub_0_r in D. subst k. split.
    + rewrite <- requests_schedule, D, requests_app, requests_plan. cbn.
      replace (sent v) with (S (sent v - 1)) at 3 by lia.
      rewrite seq_S. do 2 f_equal. lia.
    + right. repeat split; try assumption; try lia;
        intros; apply C; lia.
Qed.

(** ** The caller of the loop *)

Ltac split_matches :=
  repeat match goal with
         | |- context [match ?x with _ => _ end] => destruct x eqn:?; cbn
         end.

Lemma setRunning_runs state buttonId messageKey p :
  exists p', setRunning state buttonId messageKey p = (inr tt, p')
    /\ network p' = network p /\ isRunning p' = state
    /\ disabled (document p' buttonId) = state.
Proof.
  eexists. split; [reflexivity |]. cbn. repeat split.
  unfold on_element. rewrite String.eqb_refl.
  destruct state; cbn; [| split_matches; reflexivity].
  unfold class_add. split_matches; reflexivity.
Qed.

Lemma render_failed_runs e p :
  exists p', render_failed e p = (inr tt, p') /\ network p' = network p.
Proof. eexists. split; reflexivity. Qed.

Lemma has_text_pure candidate p : snd (has_text candidate p) = p.
Proof.
  unfold has_text, bind, lift, ret.
  destruct (truthy candidate); [| reflexivity].
  destruct (get candidate "content"); reflexivity.
Qed.

Lemma render_keeps_network r p : network (snd (render r p)) = network p.
Proof.
  unfold render, bind at 1 2, read.
  pose proof (has_text_pure (first_opt (get_opt r "candidates")) p) as H.
  destruct (has_text _ p) as [[e | found] p1]; cbn [snd] in H; subst p1;
    [reflexivity |].
  unfold bind, lift, modify, ret.
  destruct found; split_matches; reflexivity.
Qed.

(** Rendering can throw: the body [null] sent with a success status. *)
Example render_null_throws p :
  fst (render VNull p) = inl (TypeError "Cannot read properties of null").
Proof. reflexivity. Qed.

(** Whatever [render] does, the function returns normally with the
    button enabled again, and it has made the requests of the loop. *)
Lemma getSuggestion_runs N base net p v :
  isRunning p = false -> lastErrorMessage p <> "" ->
  retry_loop N base net = Some v ->
  exists p', getSuggestion N base net p = (inr tt, p')
    /\ network p' = trace v /\ isRunning p' = false
    /\ disabled (document p' "suggestion-button") = false.
Proof.
  intros Hrun Hlast Hloop.
  apply String.eqb_neq in Hlast.
  unfold getSuggestion, bind at 1 2, read. rewrite Hrun, Hlast, Hloop. cbn [orb].
  unfold bind at 1.
  destruct (setRunning_runs true "suggestion-button" "getting-suggestion" p)
    as (p1 & -> & N1 & _).
  unfold bind at 1 2 3, read, modify, try_finally, try_catch.
  set (p2 := set_network _ _).
  pose proof (render_keeps_network (result v) p2) as Hr.
  destruct (render (result v) p2) as [[e | []] p3]; cbn [snd] in Hr.
  - destruct (render_failed_runs e p3) as (p4 & -> & N4).
    destruct (setRunning_runs false "suggestion-button" "getting-suggestion" p4)
      as (p5 & -> & N5 & R5 & D5).
    exists p5. repeat split; try assumption. now rewrite N5, N4, Hr.
  - destruct (setRunning_runs false "suggestion-button" "getting-suggestion" p3)
      as (p5 & -> & N5 & R5 & D5).
    exists p5. repeat split; try assumption. now rewrite N5, Hr.
Qed.

(** ** The claims about the retry client *)

Lemma plan_backoff N base :
  plan N base 0 N =
  flat_map (fun k => Fetch k :: if k <? N then [Sleep (backoff base k)] else [])
           (seq 1 N).
Proof.
  unfold plan, backoff. apply flat_map_ext. intros k.
  now rewrite Z.mul_comm.
Qed.

Lemma attempt_fails r :
  throws r = true \/ non_success_status r = true <-> fails r = true.
Proof. unfold fails. rewrite orb_true_iff. reflexivity. Qed.

(** C1.  For every bound N >= 1 and every base delay > 0, when each of the
    attempts 1..N ends in the catch block or brings a non-success status,
    the loop sends exactly the N requests 1..N, ends with the
    MaxRetriesExceeded failure, and sleeps [baseDelayMs * 2^k] between
    request k and request k+1, for k = 1..N-1, and at no other place. *)
Theorem all_attempts_failing_exhausts_the_retries
    (N : nat) (baseDelayMs : Z) (net : nat -> fetch_result) :
  1 <= N -> (0 < baseDelayMs)%Z ->
  (forall k, 1 <= k <= N ->
     throws (net k) = true \/ non_success_status (net k) = true) ->
  exists v, retry_loop N baseDelayMs net = Some v
    /\ sent v = N
    /\ requests (trace v) = seq 1 N
    /\ as_result N v = Failure MaxRetriesExceeded (VStr max_retries_message)
    /\ delays (trace v)
       = map (fun k => (baseDelayMs * 2 ^ Z.of_nat k)%Z) (seq 1 (N - 1))
    /\ schedule (trace v)
       = flat_map (fun k => Fetch k ::
                     if k <? N then [Sleep (baseDelayMs * 2 ^ Z.of_nat k)] else [])
                  (seq 1 N).
Proof.
  intros HN _ Hfail.
  destruct (retry_loop_outcome N baseDelayMs net) as (v & Hv & Hreq & H).
  exists v. split; [exact Hv |].
  destruct H as [(Hs & Ha & _ & Hr & Hsch) | (Hk & _ & _ & Hp & _)].
  - repeat split.
    + exact Hs.
    + now rewrite Hreq, Hs.
    + unfold as_result. rewrite Ha, Nat.ltb_irrefl, (Hr HN). reflexivity.
    + rewrite <- delays_schedule, Hsch. now apply delays_plan_all.
    + rewrite Hsch. apply plan_backoff.
  - apply payload_not_fails in Hp.
    rewrite (proj1 (attempt_fails _) (Hfail _ Hk)) in Hp. discriminate.
Qed.

(** The loop of the source (three attempts, base delay 1000 ms) when no
    request gets through: requests 1, 2, 3 with 2000 ms and 4000 ms between. *)
Lemma all_attempts_failing_exhausts_the_retries_witness :
  exists v, getSuggestion_loop (fun _ => NetworkError "Failed to fetch") = Some v
    /\ sent v = 3
    /\ requests (trace v) = [1; 2; 3]
    /\ as_result 3 v = Failure MaxRetriesExceeded (VStr max_retries_message)
    /\ delays (trace v) = [2000; 4000]%Z
    /\ schedule (trace v) = [Fetch 1; Sleep 2000; Fetch 2; Sleep 4000; Fetch 3].
Proof.
  apply (all_attempts_failing_exhausts_the_retries 3 1000
           (fun _ => NetworkError "Failed to fetch")).
  - lia.
  - lia.
  - intros k _. left. reflexivity.
Defined.

Definition ok_response : http_response := {| ok := true; statusText := "OK" |}.

(** The first answer has a success status and a body that is not JSON (an
    empty body, say); the second one is fine. *)
Definition first_body_unparsable (k : nat) : fetch_result :=
  if k =? 1 then Response ok_response (BodyInvalid "Unexpected end of JSON input")
  else Response ok_response (BodyJson (VObj [])).

(** C2, as stated, fails: attempt 1 is the first attempt that returns a
    success status, yet the loop does not stop after it: [response.json()]
    rejects before [response.ok] is looked at, the loop sleeps 2000 ms and
    sends a second request, and the result is the payload of attempt 2. *)
Lemma success_status_with_unparsable_body_is_retried :
  success_status (first_body_unparsable 1) = true
  /\ fetch_rejects (first_body_unparsable 1) = false
  /\ exists v, retry_loop 3 1000 first_body_unparsable = Some v
       /\ sent v = 2
       /\ schedule (trace v) = [Fetch 1; Sleep 2000; Fetch 2]
       /\ result v = VObj [].
Proof.
  split; [reflexivity |]. split; [reflexivity |].
  eexists. split; [vm_compute; reflexivity |].
  repeat split.
Qed.

(** C2, amended.  For every bound N and every k in 1..N: when attempt k
    is the first to bring a success status together with a body that
    parses as JSON (an earlier attempt may have thrown, brought another
    status, or a success status with a body that does not parse), the loop
    stops after exactly the k requests 1..k with that payload as its
    result (for k = 1: one request, whatever N is); and getSuggestion as a
    whole has made these k requests and no other when it returns, also
    when rendering the payload throws. *)
Theorem first_success_ends_the_loop
    (N : nat) (baseDelayMs : Z) (net : nat -> fetch_result)
    (k : nat) (payload : value) (p : page) :
  1 <= k <= N ->
  success_payload (net k) = Some payload ->
  (forall j, 1 <= j < k -> success_payload (net j) = None) ->
  isRunning p = false -> lastErrorMessage p <> "" ->
  (exists v, retry_loop N baseDelayMs net = Some v
     /\ sent v = k /\ requests (trace v) = seq 1 k
     /\ result v = payload /\ as_result N v = Success payload)
  /\ (exists p', getSuggestion N baseDelayMs net p = (inr tt, p')
       /\ requests (network p') = seq 1 k).
Proof.
  intros Hk Hpay Hfirst Hrun Hlast.
  destruct (retry_loop_outcome N baseDelayMs net) as (v & Hv & Hreq & H).
  assert (Hstop : sent v = k /\ result v = payload /\ attempts v = k - 1).
  { destruct H as [(Hs & _ & Hf & _) | (Hs & Ha & Hf & Hp & _)].
    - apply payload_not_fails in Hpay. rewrite Hf in Hpay by lia. discriminate.
    - destruct (Nat.lt_trichotomy (sent v) k) as [Hlt | [Heq | Hgt]].
      + rewrite Hfirst in Hp by lia. discriminate.
      + subst k. rewrite Hp in Hpay. injection Hpay as ->. auto.
      + apply payload_not_fails in Hpay. rewrite Hf in Hpay by lia. discriminate. }
  destruct Hstop as (Hs & Hr & Ha). split.
  - exists v. repeat split; try assumption.
    + now rewrite Hreq, Hs.
    + unfold as_result. rewrite Ha, Hr.
      replace (k - 1 <? N) with true by (symmetry; apply Nat.ltb_lt; lia).
      reflexivity.
  - destruct (getSuggestion_runs N baseDelayMs net p v Hrun Hlast Hv)
      as (p' & Hp' & Hn & _).
    exists p'. split; [exact Hp' |]. now rewrite Hn, Hreq, Hs.
Qed.

Definition second_answers_null (k : nat) : fetch_result :=
  if k =? 2 then Response {| ok := true; statusText := "OK" |} (BodyJson VNull)
  else NetworkError "Failed to fetch".

Definition page_with_error : page :=
  {| isRunning := false; lastErrorMessage := "NameError: name 'x' is not defined";
     currentLanguage := En; document := fun _ => blank; network := [] |}.

(** The second of three attempts answers 200 with the body [null], which
    the rendering code cannot read: two requests all the same. *)
Lemma first_success_ends_the_loop_witness :
  (exists v, retry_loop 3 1000 second_answers_null = Some v
     /\ sent v = 2 /\ requests (trace v) = [1; 2]
     /\ result v = VNull /\ as_result 3 v = Success VNull)
  /\ (exists p', getSuggestion 3 1000 second_answers_null page_with_error = (inr tt, p')
       /\ requests (network p') = [1; 2]).
Proof.
  apply (first_success_ends_the_loop 3 1000 second_answers_null 2 VNull page_with_error).
  - lia.
  - reflexivity.
  - intros j Hj. assert (j = 1) as -> by lia. reflexivity.
  - reflexivity.
  - discriminate.
Defined.

(** ** What the console gets, and the last response *)

Lemma logged_app t u : logged (t ++ u) = logged t ++ logged u.
Proof. apply flat_map_app. Qed.

Lemma try_block_console net v :
  let v1 := fst (try_block net v) in
  logged (trace v1) = logged (trace v) ++ thrown (net (S (sent v)))
  /\ sent v1 = S (sent v) /\ attempts v1 = attempts v
  /\ (forall r b, net (S (sent v)) = Response r b -> response v1 = Some r).
Proof.
  unfold try_block. cbn.
  destruct (net (S (sent v))) as [e | rsp [j | e]]; cbn;
    rewrite ?logged_app; cbn; rewrite ?app_nil_r;
    repeat split; try reflexivity; intros r b [= <- _]; reflexivity.
Qed.

Lemma after_failure_console N base v :
  let v2 := after_failure N base v in
  logged (trace v2) = logged (trace v) /\ sent v2 = sent v
  /\ attempts v2 = S (attempts v) /\ response v2 = response v.
Proof.
  unfold after_failure.
  change (attempts (set_attempts (S (attempts v)) v)) with (S (attempts v)).
  destruct (S (attempts v) <? N); cbn; rewrite ?logged_app; cbn;
    rewrite ?app_nil_r; repeat split.
Qed.

(** Every error that reaches the [catch] block is on the console, in the
    order of the attempts, and [response] holds the last response. *)
Lemma while_console N base net : forall n v fuel v',
  attempts v + n = N -> sent v = attempts v -> n < fuel ->
  while N base net fuel v = Some v' ->
  sent v <= sent v'
  /\ logged (trace v')
     = logged (trace v)
       ++ flat_map (fun k => thrown (net k)) (seq (S (sent v)) (sent v' - sent v))
  /\ (sent v' = sent v -> response v' = response v)
  /\ (sent v < sent v' ->
      forall r b, net (sent v') = Response r b -> response v' = Some r).
Proof.
  induction n as [| n IH]; intros v fuel v' Hn Hs Hfuel;
    (destruct fuel as [| fuel]; [lia |]); cbn [while].
  - replace (attempts v <? N) with false by (symmetry; apply Nat.ltb_ge; lia).
    intros [= <-]. rewrite Nat.sub_diag. cbn. rewrite app_nil_r.
    repeat split; try lia.
  - replace (attempts v <? N) with true by (symmetry; apply Nat.ltb_lt; lia).
    destruct (try_block_console net v) as (L1 & S1 & A1 & R1).
    destruct (try_block net v) as [v1 broke]. cbn [fst] in *.
    destruct broke.
    + intros [= <-]. rewrite S1.
      replace (S (sent v) - sent v) with 1 by lia. cbn. rewrite app_nil_r.
      split; [lia |]. split; [exact L1 |]. split; [lia |].
      intros _. exact R1.
    + destruct (after_failure_console N base v1) as (L2 & S2 & A2 & R2).
      intros Hw.
      destruct (IH (after_failure N base v1) fuel v') as (Hle & L & Req & Rlt);
        [lia | lia | lia | exact Hw |].
      rewrite S2, S1 in *.
      split; [lia |]. split; [| split; [lia |]].
      * rewrite L, L2, L1, <- app_assoc. f_equal.
        replace (sent v' - sent v) with (S (sent v' - S (sent v))) by lia.
        reflexivity.
      * intros _ r b Hr.
        destruct (decide (sent v' = S (sent v))) as [E | E].
        -- rewrite (Req E), R2. apply (R1 r b). now rewrite <- E.
        -- apply (Rlt ltac:(lia) r b). exact Hr.
Qed.

Lemma retry_loop_console N base net v :
  retry_loop N base net = Some v ->
  logged (trace v) = flat_map (fun k => thrown (net k)) (seq 1 (sent v))
  /\ (1 <= sent v -> forall r b, net (sent v) = Response r b -> response v = Some r).
Proof.
  intros Hv.
  destruct (while_console N base net N start (S N) v) as (_ & L & _ & R);
    [reflexivity | reflexivity | lia | exact Hv |].
  cbn in L. rewrite Nat.sub_0_r in L. split; [exact L |].
  intros Hs. apply R. cbn. lia.
Qed.

(** The first answer has a success status and a body that is not JSON;
    after it the network is down. *)
Definition unparsable_then_down (k : nat) : fetch_result :=
  if k =? 1 then Response ok_response (BodyInvalid "Unexpected token < in JSON")
  else NetworkError "Failed to fetch".

(** C3, as stated, fails: attempt 1 does not fail at transport ([fetch]
    resolves) and its status is a success, yet it is retried, because its
    body does not parse. *)
Lemma unparsable_success_is_retried :
  fetch_rejects (unparsable_then_down 1) = false
  /\ success_status (unparsable_then_down 1) = true
  /\ non_success_status (unparsable_then_down 1) = false
  /\ exists v, retry_loop 3 1000 unparsable_then_down = Some v
       /\ requests (trace v) = [1; 2; 3]
       /\ schedule (trace v) = [Fetch 1; Sleep 2000; Fetch 2; Sleep 4000; Fetch 3].
Proof.
  do 3 (split; [reflexivity |]).
  eexists. split; [vm_compute; reflexivity |]. split; reflexivity.
Qed.

(** C3, amended.  With at least one attempt allowed, the loop sends
    requests 1, ..., m for some m in 1..N, and attempt i (sent, with
    attempts remaining: i < N) is followed by attempt i+1 if and only if
    [fetch] rejected, or [response.json()] rejected (whatever the status),
    or the status was not a success.  Attempt i is sent whenever all
    attempts before it failed in one of these ways.  A success status with
    a JSON body that carries an [error] field ends the loop: no request
    follows and the body is the result as it is. *)
Theorem retried_iff_thrown_or_non_success
    (N : nat) (baseDelayMs : Z) (net : nat -> fetch_result) :
  1 <= N ->
  exists v, retry_loop N baseDelayMs net = Some v
    /\ requests (trace v) = seq 1 (sent v)
    /\ 1 <= sent v <= N
    /\ (forall i, 1 <= i <= N ->
          (forall j, 1 <= j < i ->
             fetch_rejects (net j) = true \/ json_rejects (net j) = true
             \/ non_success_status (net j) = true) ->
          In i (requests (trace v)))
    /\ (forall i, 1 <= i < N -> In i (requests (trace v)) ->
          (In (S i) (requests (trace v))
           <-> fetch_rejects (net i) = true \/ json_rejects (net i) = true
               \/ non_success_status (net i) = true))
    /\ (forall i r body, In i (requests (trace v)) ->
          net i = Response r (BodyJson body) -> ok r = true ->
          truthy (get_opt body "error") = true ->
          sent v = i /\ ~ In (S i) (requests (trace v))
          /\ result v = body /\ as_result N v = Success body).
Proof.
  intros HN.
  assert (Hthree : forall r, fetch_rejects r = true \/ json_rejects r = true
                             \/ non_success_status r = true <-> fails r = true).
  { intros r. unfold fails. rewrite orb_true_iff.
    destruct r as [e | rsp [j | e]]; cbn; intuition congruence. }
  destruct (retry_loop_outcome N baseDelayMs net) as (v & Hv & Hreq & H).
  exists v. split; [exact Hv |]. split; [exact Hreq |]. rewrite Hreq.
  assert (Hok : forall i r body, net i = Response r (BodyJson body) -> ok r = true ->
                  success_payload (net i) = Some body /\ fails (net i) = false).
  { intros i r body E O. assert (success_payload (net i) = Some body) as P.
    { rewrite E. cbn. now rewrite O. }
    split; [exact P | exact (payload_not_fails _ _ P)]. }
  destruct H as [(Hs & Ha & Hf & _) | (Hs & Ha & Hf & Hp & _)].
  - split; [lia |]. split; [| split].
    + intros i Hi _. apply in_seq. lia.
    + intros i Hi _. rewrite Hthree, in_seq. split; [intros _ | lia].
      apply Hf. lia.
    + intros i r body Hin E O _. apply in_seq in Hin.
      destruct (Hok i r body E O) as (_ & F). rewrite Hf in F by lia. discriminate.
  - split; [lia |]. split; [| split].
    + intros i Hi Hbefore. apply in_seq.
      destruct (le_lt_dec i (sent v)) as [Hle | Hgt]; [lia |].
      apply payload_not_fails in Hp.
      rewrite (proj1 (Hthree _) (Hbefore (sent v) ltac:(lia))) in Hp. discriminate.
    + intros i Hi Hin. rewrite Hthree, !in_seq in *. split.
      * intros Hnext. apply Hf. lia.
      * intros F. assert (i <> sent v); [| lia].
        intros ->. apply payload_not_fails in Hp. congruence.
    + intros i r body Hin E O _. apply in_seq in Hin.
      destruct (Hok i r body E O) as (P & F).
      assert (i = sent v) as ->.
      { destruct (decide (i = sent v)); [assumption |].
        rewrite Hf in F by lia. discriminate. }
      rewrite Hp in P. injection P as P.
      repeat split; try assumption.
      * rewrite in_seq. lia.
      * unfold as_result. rewrite Ha, P.
        replace (sent v - 1 <? N) with true by (symmetry; apply Nat.ltb_lt; lia).
        reflexivity.
Qed.

Definition api_error_body : value :=
  VObj [("error", VObj [("code", VNum 400); ("message", VStr "API key not valid")])].

Definition answers_api_error (k : nat) : fetch_result :=
  Response {| ok := true; statusText := "OK" |} (BodyJson api_error_body).

(** A 200 answer with an [error] object: one request, no delay, and the
    caller shows the message of that object. *)
Example api_error_is_shown_not_retried :
  exists v p, getSuggestion_loop answers_api_error = Some v
    /\ trace v = [Fetch 1] /\ result v = api_error_body
    /\ getSuggestion 3 1000 answers_api_error page_with_error = (inr tt, p)
    /\ content (document p "suggestion-box")
       = TMsg En "error-api" +++ TLit " " +++ TVal (VStr "API key not valid").
Proof. do 2 eexists. repeat split. Qed.

(** [fetch] rejects, then a success status with a body that does not
    parse, then a success status with an [error] object. *)
Definition two_retries_then_api_error (k : nat) : fetch_result :=
  if k =? 1 then NetworkError "Failed to fetch"
  else if k =? 2 then Response ok_response (BodyInvalid "Unexpected end of JSON input")
  else Response ok_response (BodyJson api_error_body).

Lemma retried_iff_thrown_or_non_success_witness :
  exists v, retry_loop 3 1000 two_retries_then_api_error = Some v
    /\ requests (trace v) = seq 1 (sent v)
    /\ 1 <= sent v <= 3
    /\ (forall i, 1 <= i <= 3 ->
          (forall j, 1 <= j < i ->
             fetch_rejects (two_retries_then_api_error j) = true
             \/ json_rejects (two_retries_then_api_error j) = true
             \/ non_success_status (two_retries_then_api_error j) = true) ->
          In i (requests (trace v)))
    /\ (forall i, 1 <= i < 3 -> In i (requests (trace v)) ->
          (In (S i) (requests (trace v))
           <-> fetch_rejects (two_retries_then_api_error i) = true
               \/ json_rejects (two_retries_then_api_error i) = true
               \/ non_success_status (two_retries_then_api_error i) = true))
    /\ (forall i r body, In i (requests (trace v)) ->
          two_retries_then_api_error i = Response r (BodyJson body) -> ok r = true ->
          truthy (get_opt body "error") = true ->
          sent v = i /\ ~ In (S i) (requests (trace v))
          /\ result v = body /\ as_result 3 v = Success body).
Proof.
  apply (retried_iff_thrown_or_non_success 3 1000 two_retries_then_api_error). lia.
Defined.

(** The same run, computed: three requests, and the body with the [error]
    object is the result. *)
Example two_retries_then_api_error_run :
  exists v, retry_loop 3 1000 two_retries_then_api_error = Some v
    /\ schedule (trace v) = [Fetch 1; Sleep 2000; Fetch 2; Sleep 4000; Fetch 3]
    /\ result v = api_error_body
    /\ logged (trace v)
       = [TypeError "Failed to fetch"; Error "Unexpected end of JSON input"].
Proof. eexists. split; [vm_compute; reflexivity |]. repeat split. Qed.

Definition quota_body : value :=
  VObj [("error", VObj [("message", VStr "Quota exceeded")])].

Definition answers_quota (k : nat) : fetch_result :=
  Response {| ok := false; statusText := "Too Many Requests" |} (BodyJson quota_body).

Definition never_connects (k : nat) : fetch_result := NetworkError "Failed to fetch".

(** C7, as stated, fails: after three failed attempts the detail of the
    result is the fixed message, neither the body of the last non-success
    response nor the error the last [fetch] threw. *)
Lemma exhausted_detail_is_not_the_last_failure :
  (exists v, retry_loop 3 1000 answers_quota = Some v
     /\ non_success_status (answers_quota 3) = true
     /\ as_result 3 v = Failure MaxRetriesExceeded (VStr max_retries_message)
     /\ VStr max_retries_message <> failure_detail (answers_quota 3)
     /\ VStr max_retries_message <> VStr "Quota exceeded"
     /\ result v <> failure_detail (answers_quota 3))
  /\ (exists v, retry_loop 3 1000 never_connects = Some v
       /\ throws (never_connects 3) = true
       /\ as_result 3 v = Failure MaxRetriesExceeded (VStr max_retries_message)
       /\ VStr max_retries_message <> failure_detail (never_connects 3)).
Proof.
  split; eexists; (split; [vm_compute; reflexivity |]);
    repeat (split; [vm_compute; try reflexivity; discriminate |]);
    vm_compute; discriminate.
Qed.

(** C7, amended.  After N >= 1 failed attempts the result is the fixed
    object [{ error: { message: "Max retries reached. Could not fetch
    response." } }], the same whatever the failures were.  What the
    failures had to tell is elsewhere: every error that reached the
    [catch] block is on the console, in the order of the attempts, the one
    of the last attempt last; and when the last attempt brought a
    response, [response] still holds it, while its body is overwritten. *)
Theorem exhausted_result_is_the_fixed_message
    (N : nat) (baseDelayMs : Z) (net : nat -> fetch_result) :
  1 <= N ->
  (forall k, 1 <= k <= N -> fails (net k) = true) ->
  exists v, retry_loop N baseDelayMs net = Some v
    /\ attempts v = N
    /\ result v = max_retries_result
    /\ as_result N v = Failure MaxRetriesExceeded (VStr max_retries_message)
    /\ logged (trace v) = flat_map (fun k => thrown (net k)) (seq 1 N)
    /\ (forall e, thrown (net N) = [e] -> last (logged (trace v)) = Some e)
    /\ (forall r b, net N = Response r b -> response v = Some r).
Proof.
  intros HN Hfail.
  destruct (retry_loop_outcome N baseDelayMs net) as (v & Hv & _ & H).
  destruct (retry_loop_console N baseDelayMs net v Hv) as (Hlog & Hresp).
  exists v. split; [exact Hv |].
  destruct H as [(Hs & Ha & _ & Hr & _) | (Hk & _ & _ & Hp & _)].
  - rewrite Hs in Hlog, Hresp.
    split; [exact Ha |]. split; [exact (Hr HN) |]. split; [| split; [exact Hlog |]].
    + unfold as_result. rewrite Ha, Nat.ltb_irrefl, (Hr HN). reflexivity.
    + split; [| exact (Hresp HN)].
      intros e He. rewrite Hlog.
      replace N with (S (N - 1)) at 1 by lia.
      rewrite seq_S, flat_map_app. cbn [flat_map].
      replace (1 + (N - 1)) with N by lia.
      rewrite He, app_nil_r. apply last_snoc.
  - apply payload_not_fails in Hp. rewrite Hfail in Hp by exact Hk. discriminate.
Qed.

(** The network is down for two attempts; the third gets a 429 with a
    body. *)
Definition down_then_quota (k : nat) : fetch_result :=
  if k <=? 2 then NetworkError "Failed to fetch" else answers_quota k.

Lemma exhausted_result_is_the_fixed_message_witness :
  exists v, retry_loop 3 1000 never_connects = Some v
    /\ attempts v = 3
    /\ result v = max_retries_result
    /\ as_result 3 v = Failure MaxRetriesExceeded (VStr max_retries_message)
    /\ logged (trace v) = flat_map (fun k => thrown (never_connects k)) (seq 1 3)
    /\ (forall e, thrown (never_connects 3) = [e] -> last (logged (trace v)) = Some e)
    /\ (forall r b, never_connects 3 = Response r b -> response v = Some r).
Proof.
  apply (exhausted_result_is_the_fixed_message 3 1000 never_connects).
  - lia.
  - intros k _. reflexivity.
Defined.

(** The same on two runs, computed: what is logged, what [response] holds. *)
Example exhausted_runs :
  (exists v, retry_loop 3 1000 never_connects = Some v
     /\ logged (trace v) = [TypeError "Failed to fetch"; TypeError "Failed to fetch";
                            TypeError "Failed to fetch"]
     /\ response v = None /\ result v = max_retries_result)
  /\ (exists v, retry_loop 3 1000 down_then_quota = Some v
       /\ logged (trace v) = [TypeError "Failed to fetch"; TypeError "Failed to fetch"]
       /\ response v = Some {| ok := false; statusText := "Too Many Requests" |}
       /\ result v = max_retries_result).
Proof.
  split; eexists; (split; [vm_compute; reflexivity |]); repeat split.
Qed.

End RetryFacts.

(* ===================================================================== *)
(** * Facts about the autosave *)
(* ===================================================================== *)
Module SyncFacts.
Import Sync.

#[local] Arguments Nat.ltb : simpl never.
#[local] Arguments Nat.leb : simpl never.
#[local] Arguments Nat.add : simpl never.

(** ** Sanity checks on small runs *)

(** The scenario of the specification: edits at 0, 500 and 800 ms, then
    quiet; the first write is the one of the set-up. *)
Example three_edits_one_write :
  writes (run true [Edit "a"; Wait 500; Edit "ab"; Wait 300; Edit "abc"; Wait 2000]
            (signed_in "u1" (page_loaded 0 None)))
  = [{| started := 0; code := default_code |}; {| started := 2800; code := "abc" |}].
Proof. reflexivity. Qed.

Example timers_fire_by_deadline :
  by_deadline [{| tid := 1; deadline := 30 |}; {| tid := 2; deadline := 10 |};
               {| tid := 3; deadline := 30 |}]
  = [{| tid := 2; deadline := 10 |}; {| tid := 1; deadline := 30 |};
     {| tid := 3; deadline := 30 |}].
Proof. reflexivity. Qed.

(** ** What the store keeps true *)

(** Consecutive writes start at least the debounce interval apart. *)
Definition spaced (ws : list write) : Prop :=
  forall i w1 w2, ws !! i = Some w1 -> ws !! S i = Some w2 ->
    started w1 + 2000 <= started w2.

(** Every write so far started at least 2000 ms before [d]. *)
Definition last_write_before (st : state) (d : nat) : Prop :=
  forall w, last (writes st) = Some w -> started w + 2000 <= d.

(** At most one timer is pending, and it is the one [saveTimeout] names. *)
Definition one_timer (st : state) : Prop :=
  timers st = [] \/
  exists t, timers st = [t] /\ saveTimeout st = Some (tid t)
    /\ now st < deadline t /\ last_write_before st (deadline t).

Record inv (st : state) : Prop := {
  inv_ready : ready st = true;
  inv_listening : listening st = true;
  inv_subscribed : subscribed st = true;
  inv_timer : one_timer st;
  inv_spaced : spaced (writes st);
  inv_past : forall w, last (writes st) = Some w -> started w <= now st
}.

Lemma spaced_snoc ws w :
  spaced ws ->
  (forall w0, last ws = Some w0 -> started w0 + 2000 <= started w) ->
  spaced (ws ++ [w]).
Proof.
  intros Hs Hl i w1 w2 H1 H2.
  destruct (decide (S i < length ws)) as [Hlt | Hge].
  - rewrite lookup_app_l in H1 by lia. rewrite lookup_app_l in H2 by lia.
    eauto.
  - assert (S i = length ws) as Hi.
    { apply lookup_lt_Some in H2. rewrite length_app in H2. cbn in H2. lia. }
    rewrite lookup_app_l in H1 by lia.
    rewrite lookup_app_r, Hi, Nat.sub_diag in H2 by lia.
    injection H2 as <-. apply Hl.
    rewrite last_lookup. now replace (pred (length ws)) with i by lia.
Qed.

Lemma last_snoc' (ws : list write) w : last (ws ++ [w]) = Some w.
Proof. apply last_snoc. Qed.

(** ** The functions, field by field *)

Lemma clear_own_timer st :
  one_timer st -> timers (clearTimeout (saveTimeout st) st) = [].
Proof.
  intros [H | (t & H & Hs & _)]; unfold clearTimeout.
  - destruct (saveTimeout st); [cbn; now rewrite H | exact H].
  - rewrite Hs. cbn. rewrite H. cbn. now rewrite Nat.eqb_refl.
Qed.

Lemma clearTimeout_fields id st :
  let st' := clearTimeout id st in
  now st' = now st /\ editor st' = editor st /\ writes st' = writes st
  /\ outstanding st' = outstanding st /\ remote st' = remote st
  /\ console st' = console st /\ next_timer st' = next_timer st
  /\ ready st' = ready st /\ listening st' = listening st
  /\ subscribed st' = subscribed st.
Proof. destruct id; cbn; repeat split. Qed.

#[local] Arguments clearTimeout : simpl never.

(** The change listener leaves exactly one timer, due in 2000 ms. *)
Lemma on_change_spec st :
  one_timer st ->
  let st' := on_change st in
  timers st' = [{| tid := next_timer st; deadline := now st + 2000 |}]
  /\ saveTimeout st' = Some (next_timer st)
  /\ now st' = now st /\ editor st' = editor st /\ writes st' = writes st
  /\ outstanding st' = outstanding st /\ remote st' = remote st
  /\ console st' = console st
  /\ ready st' = ready st /\ listening st' = listening st
  /\ subscribed st' = subscribed st.
Proof.
  intros H.
  pose proof (clear_own_timer st H) as Hc.
  destruct (clearTimeout_fields (saveTimeout st) st)
    as (E1 & E2 & E3 & E4 & E5 & E6 & E7 & E8 & E9 & E10).
  unfold on_change, setTimeout. cbn.
  rewrite Hc, E1, E2, E3, E4, E5, E6, E7, E9, E10.
  repeat split. unfold ready in *. exact E8.
Qed.

#[local] Arguments on_change : simpl never.

Lemma on_change_inv st : inv st -> inv (on_change st).
Proof.
  intros [Hr Hl Hs Ht Hsp Hp].
  destruct (on_change_spec st Ht)
    as (T & S & E1 & E2 & E3 & E4 & E5 & E6 & E8 & E9 & E10).
  split.
  - now rewrite E8.
  - now rewrite E9.
  - now rewrite E10.
  - right. eexists. split; [exact T |]. cbn [tid deadline]. repeat split.
    + exact S.
    + rewrite E1. lia.
    + intros w Hw. rewrite E3 in Hw. specialize (Hp w Hw). lia.
  - now rewrite E3.
  - intros w Hw. rewrite E3 in Hw. rewrite E1. auto.
Qed.

(** Time passes: the pending timer, if it is due, fires once, at its
    deadline, and starts a write of the editor's text. *)
Lemma wait_spec st ms :
  one_timer st -> ready st = true ->
  let st' := wait ms st in
  (now st' = now st + ms /\ editor st' = editor st
   /\ saveTimeout st' = saveTimeout st /\ remote st' = remote st
   /\ console st' = console st /\ ready st' = true
   /\ listening st' = listening st /\ subscribed st' = subscribed st)
  /\ ((timers st = [] /\ timers st' = []
       /\ writes st' = writes st /\ outstanding st' = outstanding st)
      \/ (exists t, timers st = [t] /\ now st + ms < deadline t
            /\ timers st' = [t]
            /\ writes st' = writes st /\ outstanding st' = outstanding st)
      \/ (exists t, timers st = [t] /\ deadline t <= now st + ms
            /\ timers st' = []
            /\ writes st' = writes st ++ [{| started := deadline t; code := editor st |}]
            /\ outstanding st' = outstanding st ++ [length (writes st)])).
Proof.
  intros Ht Hr. unfold wait.
  destruct Ht as [H | (t & H & _)]; rewrite H; cbn [List.filter].
  - cbn. repeat split; try assumption. left. repeat split.
  - destruct (deadline t <=? now st + ms) eqn:E; cbn [negb].
    + apply Nat.leb_le in E.
      unfold by_deadline, fire, saveEditorContent. cbn.
      unfold ready in Hr |- *. cbn. rewrite Hr. cbn.
      repeat split; try assumption.
      right. right. exists t. repeat split. exact E.
    + apply Nat.leb_gt in E. cbn. repeat split; try assumption.
      right. left. exists t. repeat split. exact E.
Qed.

#[local] Arguments wait : simpl never.

Lemma wait_inv st ms : inv st -> inv (wait ms st).
Proof.
  intros [Hr Hl Hs Ht Hsp Hp].
  destruct (wait_spec st ms Ht Hr)
    as ((E1 & E2 & E3 & E4 & E5 & E6 & E7 & E8) & H).
  destruct H as [(T & T' & W & O) | [(t & T & D & T' & W & O) | (t & T & D & T' & W & O)]];
    (split; [assumption | congruence | congruence | | |]).
  - now left.
  - now rewrite W.
  - intros w Hw. rewrite W in Hw. rewrite E1. specialize (Hp w Hw). lia.
  - right. exists t. rewrite E3, E1. repeat split; try assumption.
    + destruct Ht as [Ht | (t' & Ht & S & _)]; congruence.
    + intros w Hw. unfold last_write_before in *. rewrite W in Hw.
      destruct Ht as [Ht | (t' & Ht & _ & _ & L)]; [congruence |].
      assert (t' = t) as -> by congruence. auto.
  - now rewrite W.
  - intros w Hw. rewrite W in Hw. rewrite E1. specialize (Hp w Hw). lia.
  - now left.
  - rewrite W. apply spaced_snoc; [assumption |]. cbn.
    destruct Ht as [Ht | (t' & Ht & _ & _ & L)]; [congruence |].
    assert (t' = t) as -> by congruence. exact L.
  - intros w Hw. rewrite W, last_snoc' in Hw. injection Hw as <-.
    cbn. lia.
Qed.

Lemma settle_fields w resolved st :
  let st' := settle w resolved st in
  now st' = now st /\ editor st' = editor st /\ writes st' = writes st
  /\ timers st' = timers st /\ saveTimeout st' = saveTimeout st
  /\ ready st' = ready st /\ listening st' = listening st
  /\ subscribed st' = subscribed st.
Proof.
  unfold settle. destruct (existsb _ _); [| cbn; repeat split].
  destruct resolved; [| cbn; repeat split].
  cbn. destruct (writes st !! w); cbn; repeat split.
Qed.

Lemma inv_same st st' :
  now st' = now st -> writes st' = writes st -> timers st' = timers st ->
  saveTimeout st' = saveTimeout st -> ready st' = ready st ->
  listening st' = listening st -> subscribed st' = subscribed st ->
  inv st -> inv st'.
Proof.
  intros E1 E2 E3 E4 E5 E6 E7 [Hr Hl Hs Ht Hsp Hp].
  split; try congruence.
  - destruct Ht as [Ht | (t & Ht & S & D & L)]; [left; congruence | right].
    exists t. unfold last_write_before in *. rewrite E1, E2, E3, E4. auto.
  - now rewrite E2.
  - rewrite E1, E2. exact Hp.
Qed.

Lemma settle_inv w resolved st : inv st -> inv (settle w resolved st).
Proof.
  destruct (settle_fields w resolved st) as (E1 & _ & E2 & E3 & E4 & E5 & E6 & E7).
  now apply inv_same.
Qed.

Lemma set_editor_inv text st : inv st -> inv (set_editor text st).
Proof. now apply inv_same. Qed.

Lemma print_inv l st : inv st -> inv (print l st).
Proof. now apply inv_same. Qed.

Lemma on_snapshot_inv notifies docSnap st : inv st -> inv (on_snapshot notifies docSnap st).
Proof.
  intros H. unfold on_snapshot, setValue.
  destruct docSnap as [| [savedCode |]]; try assumption.
  destruct (negb (String.eqb savedCode "")); [| assumption].
  destruct (negb (String.eqb (editor st) savedCode)); [| assumption].
  apply print_inv.
  destruct (notifies && listening (set_editor savedCode st)).
  - now apply on_change_inv, set_editor_inv.
  - now apply set_editor_inv.
Qed.

Lemma user_known_nonempty uid : uid <> "" -> user_known (Some uid) = true.
Proof. intros H. cbn. apply String.eqb_neq in H. now rewrite H. Qed.

Lemma signed_in_spec uid t0 remote0 :
  uid <> "" ->
  let st := signed_in uid (page_loaded t0 remote0) in
  writes st = [{| started := t0; code := default_code |}]
  /\ outstanding st = [0] /\ timers st = [] /\ saveTimeout st = None
  /\ now st = t0 /\ editor st = default_code /\ remote st = remote0
  /\ ready st = true /\ listening st = true /\ subscribed st = true.
Proof.
  intros H. apply String.eqb_neq in H.
  unfold signed_in, setupEditorPersistence, saveEditorContent, ready.
  cbn. rewrite H. cbn. rewrite H. cbn. repeat split.
Qed.

Lemma signed_in_inv uid t0 remote0 :
  uid <> "" -> inv (signed_in uid (page_loaded t0 remote0)).
Proof.
  intros H.
  destruct (signed_in_spec uid t0 remote0 H)
    as (W & _ & T & _ & N & _ & _ & R & L & S).
  split; try assumption.
  - now left.
  - rewrite W. intros i w1 w2 H1 H2. destruct i; discriminate.
  - rewrite W, N. intros w [= <-]. cbn. lia.
Qed.

Lemma step_inv notifies e st : inv st -> inv (step notifies e st).
Proof.
  intros H. destruct e as [text | docSnap | ms | w resolved]; cbn [step].
  - rewrite (inv_listening _ (set_editor_inv text st H)).
    now apply on_change_inv, set_editor_inv.
  - rewrite (inv_subscribed _ H). now apply on_snapshot_inv.
  - now apply wait_inv.
  - now apply settle_inv.
Qed.

(** Every state of the store satisfies the invariant. *)
Lemma reachable_inv notifies st : reachable notifies st -> inv st.
Proof.
  induction 1 as [t0 uid remote0 Huid | e st _ IH].
  - now apply signed_in_inv.
  - now apply step_inv.
Qed.

Lemma run_reachable notifies es : forall st,
  reachable notifies st -> reachable notifies (run notifies es st).
Proof.
  induction es as [| e es IH]; intros st H; [exact H |].
  cbn. apply IH. now constructor.
Qed.

(** ** Edits *)

Lemma edit_spec notifies text st :
  inv st ->
  let st' := step notifies (Edit text) st in
  inv st'
  /\ timers st' = [{| tid := next_timer st; deadline := now st + 2000 |}]
  /\ editor st' = text /\ now st' = now st
  /\ writes st' = writes st /\ outstanding st' = outstanding st.
Proof.
  intros H. pose proof (set_editor_inv text st H) as H'.
  cbn [step]. rewrite (inv_listening _ H').
  destruct (on_change_spec _ (inv_timer _ H'))
    as (T & _ & E1 & E2 & E3 & E4 & _).
  split; [now apply on_change_inv |]. auto.
Qed.

(** A pause shorter than the debounce interval after an edit: nothing is
    written. *)
Lemma edit_then_short_pause notifies text pause st :
  inv st -> pause < 2000 ->
  let st' := run notifies [Edit text; Wait pause] st in
  inv st' /\ now st' = now st + pause
  /\ writes st' = writes st /\ outstanding st' = outstanding st.
Proof.
  intros H Hp. cbn [run fold_left].
  destruct (edit_spec notifies text st H) as (H1 & T1 & _ & N1 & W1 & O1).
  set (st1 := step notifies (Edit text) st) in *.
  cbn [step].
  split; [now apply wait_inv |].
  destruct (wait_spec st1 pause (inv_timer _ H1) (inv_ready _ H1))
    as ((E1 & _) & [(T & _) | [(t & T & D & _ & W & O) | (t & T & D & _)]]).
  - congruence.
  - repeat split; congruence.
  - rewrite T1 in T. injection T as <-. cbn [deadline] in D. lia.
Qed.

Lemma burst_spec notifies : forall edits st,
  inv st -> Forall (fun e => snd e < 2000) edits ->
  let st' := run notifies (burst edits) st in
  inv st' /\ now st' = now st + list_sum (map snd edits)
  /\ writes st' = writes st /\ outstanding st' = outstanding st.
Proof.
  induction edits as [| [text pause] edits IH]; intros st H Hall.
  - cbn. split; [assumption |]. split; [lia |]. split; reflexivity.
  - apply Forall_cons in Hall as [Hp Hall]. cbn [snd] in Hp.
    destruct (edit_then_short_pause notifies text pause st H Hp)
      as (H1 & N1 & W1 & O1).
    change (run notifies (burst ((text, pause) :: edits)) st)
      with (run notifies (burst edits) (run notifies [Edit text; Wait pause] st)).
    destruct (IH _ H1 Hall) as (H2 & N2 & W2 & O2).
    cbn zeta. split; [assumption |]. split; [| split; congruence].
    rewrite N2, N1.
    change (list_sum (map snd ((text, pause) :: edits)))
      with (pause + list_sum (map snd edits)).
    lia.
Qed.

Lemma run_app notifies es1 es2 st :
  run notifies (es1 ++ es2) st = run notifies es2 (run notifies es1 st).
Proof. apply fold_left_app. Qed.

(** An edit followed by a quiet period of the debounce interval or more:
    one write, of the text of that edit, 2000 ms after it. *)
Lemma edit_then_quiet notifies text quiet st :
  inv st -> 2000 <= quiet ->
  let st' := run notifies [Edit text; Wait quiet] st in
  writes st' = writes st ++ [{| started := now st + 2000; code := text |}]
  /\ outstanding st' = outstanding st ++ [length (writes st)]
  /\ timers st' = [].
Proof.
  intros H Hq. cbn [run fold_left].
  destruct (edit_spec notifies text st H) as (H1 & T1 & E1 & N1 & W1 & O1).
  set (st1 := step notifies (Edit text) st) in *.
  cbn [step].
  destruct (wait_spec st1 quiet (inv_timer _ H1) (inv_ready _ H1))
    as (_ & [(T & _) | [(t & T & D & _) | (t & T & D & T' & W & O)]]).
  - congruence.
  - rewrite T1 in T. injection T as <-. cbn [deadline] in D. lia.
  - rewrite T1 in T. injection T as <-. cbn [deadline] in W.
    rewrite W, O, W1, O1, E1. auto.
Qed.

(** C4.  N >= 1 edits (the ones of [edits], then [text]), each less than
    the debounce interval of 2000 ms after the one before, then quiet:
    exactly one write is started, 2000 ms after the last edit, and it
    carries the text of the last edit.  A timer that was pending before
    the first edit is cancelled by it. *)
Theorem burst_of_edits_persists_the_last_once
    (notifies : bool) (st : state)
    (edits : list (string * nat)) (text : string) (quiet : nat) :
  reachable notifies st ->
  Forall (fun e => snd e < 2000) edits ->
  2000 <= quiet ->
  let st' := run notifies (burst edits ++ [Edit text; Wait quiet]) st in
  writes st'
  = writes st ++ [{| started := now st + list_sum (map snd edits) + 2000;
                     code := text |}]
  /\ timers st' = [].
Proof.
  intros Hreach Hall Hq. apply reachable_inv in Hreach.
  cbn zeta. rewrite run_app.
  destruct (burst_spec notifies edits st Hreach Hall) as (H1 & N1 & W1 & _).
  destruct (edit_then_quiet notifies text quiet _ H1 Hq) as (W & _ & T).
  rewrite W, W1, N1. auto.
Qed.

(** The scenario of the specification: "a" at 0 ms, "ab" at 500 ms, "abc"
    at 800 ms; one write of "abc" at 2800 ms follows the one of the set-up. *)
Lemma burst_of_edits_persists_the_last_once_witness :
  let st := signed_in "u1" (page_loaded 0 None) in
  let st' := run true (burst [("a", 500); ("ab", 300)] ++ [Edit "abc"; Wait 2000]) st in
  writes st' = writes st ++ [{| started := 2800; code := "abc" |}]
  /\ timers st' = [].
Proof.
  apply (burst_of_edits_persists_the_last_once true
           (signed_in "u1" (page_loaded 0 None)) [("a", 500); ("ab", 300)] "abc" 2000).
  - apply reach_setup. discriminate.
  - repeat constructor; cbn; lia.
  - lia.
Defined.

(** ** Remote changes *)

Definition fresh_store : state := signed_in "u1" (page_loaded 0 None).

(** C5, as stated, fails: a snapshot whose code is the empty string
    differs from the editor's text and is not applied, whatever the widget
    does on [setValue]. *)
Lemma empty_remote_code_is_not_applied :
  subscribed fresh_store = true
  /\ "" <> editor fresh_store
  /\ editor (step true (Snapshot (Document (Some ""))) fresh_store) = default_code
  /\ editor (step false (Snapshot (Document (Some ""))) fresh_store) = default_code
  /\ default_code <> "".
Proof.
  split; [reflexivity |]. split; [vm_compute; discriminate |].
  split; [vm_compute; reflexivity |]. split; [vm_compute; reflexivity |].
  vm_compute; discriminate.
Qed.

(** C5, amended.  A snapshot with no document, with no code, with the
    empty code or with the code the editor already shows changes nothing
    at all.  A snapshot whose code is not empty and differs from the
    editor's text is put into the editor by one [setValue] (one line on the
    console), and no write is started.  The listener itself does not touch
    the save timer: the timer and [saveTimeout] stay as they are unless the
    widget reports the [setValue] as a change, in which case the change
    listener replaces the pending timer by one due 2000 ms from now. *)
Theorem remote_change_applied_only_when_new
    (notifies : bool) (st : state) (docSnap : snapshot) :
  reachable notifies st ->
  let st' := step notifies (Snapshot docSnap) st in
  ((docSnap = NoDocument \/ docSnap = Document None
    \/ docSnap = Document (Some "") \/ docSnap = Document (Some (editor st))) ->
   st' = st)
  /\ (forall savedCode, docSnap = Document (Some savedCode) ->
        savedCode <> "" -> savedCode <> editor st ->
        editor st' = savedCode
        /\ console st' = console st ++ [LoadedFromFirestore]
        /\ now st' = now st /\ writes st' = writes st
        /\ outstanding st' = outstanding st /\ remote st' = remote st
        /\ (if notifies
            then timers st' = [{| tid := next_timer st; deadline := now st + 2000 |}]
                 /\ saveTimeout st' = Some (next_timer st)
            else timers st' = timers st /\ saveTimeout st' = saveTimeout st)).
Proof.
  intros Hreach. apply reachable_inv in Hreach.
  cbn zeta. cbn [step]. rewrite (inv_subscribed _ Hreach). split.
  - intros [-> | [-> | [-> | ->]]]; try reflexivity.
    unfold on_snapshot. destruct (negb (String.eqb (editor st) ""));
      [now rewrite String.eqb_refl | reflexivity].
  - intros savedCode -> Hne Hnew.
    apply String.eqb_neq in Hne.
    assert (String.eqb (editor st) savedCode = false) as Hnew'
      by (apply String.eqb_neq; congruence).
    unfold on_snapshot, setValue. rewrite Hne, Hnew'. cbn [negb].
    change (listening (set_editor savedCode st)) with (listening st).
    rewrite (inv_listening _ Hreach), andb_true_r.
    destruct notifies.
    + destruct (on_change_spec _ (inv_timer _ (set_editor_inv savedCode st Hreach)))
        as (T & S & E1 & E2 & E3 & E4 & E5 & E6 & _).
      cbn [print]. unfold print. cbn.
      rewrite T, S, E1, E2, E3, E4, E5, E6. repeat split.
    + cbn. repeat split.
Qed.

Lemma remote_change_applied_only_when_new_witness :
  let st := fresh_store in
  let st' := step true (Snapshot (Document (Some "print(2)"))) st in
  ((Document (Some "print(2)") = NoDocument \/ Document (Some "print(2)") = Document None
    \/ Document (Some "print(2)") = Document (Some "")
    \/ Document (Some "print(2)") = Document (Some (editor st))) ->
   st' = st)
  /\ (forall savedCode, Document (Some "print(2)") = Document (Some savedCode) ->
        savedCode <> "" -> savedCode <> editor st ->
        editor st' = savedCode
        /\ console st' = console st ++ [LoadedFromFirestore]
        /\ now st' = now st /\ writes st' = writes st
        /\ outstanding st' = outstanding st /\ remote st' = remote st
        /\ (timers st' = [{| tid := next_timer st; deadline := now st + 2000 |}]
             /\ saveTimeout st' = Some (next_timer st))).
Proof.
  apply (remote_change_applied_only_when_new true fresh_store
           (Document (Some "print(2)"))).
  apply reach_setup. discriminate.
Defined.

(** With a widget that reports [setValue] as a change, applying a remote
    change arms the save timer, and the text that came from the store is
    written back to it 2000 ms later. *)
Example applied_remote_change_is_written_back :
  writes (run true [Settle 0 true; Snapshot (Document (Some "print(2)")); Wait 2000]
            fresh_store)
  = [{| started := 0; code := default_code |}; {| started := 2000; code := "print(2)" |}].
Proof. reflexivity. Qed.

(** ** The timer fires *)

(** The set-up write has been stored; the user types and then restores the
    text: the editor shows what was persisted last, and the timer is armed. *)
Definition text_restored (notifies : bool) : state :=
  run notifies [Settle 0 true; Edit "x"; Wait 100; Edit default_code] fresh_store.

(** C6, as stated, fails: the timer fires while the editor's text equals
    the text persisted last (the last write, which is also what the remote
    document holds), and a second write of that text is started. *)
Lemma unchanged_text_is_written_again :
  remote (text_restored true) = Some (editor (text_restored true))
  /\ code <$> last (writes (text_restored true)) = Some (editor (text_restored true))
  /\ writes (text_restored true) = [{| started := 0; code := default_code |}]
  /\ writes (step true (Wait 2000) (text_restored true))
     = [{| started := 0; code := default_code |};
        {| started := 2100; code := default_code |}].
Proof. repeat split; vm_compute; reflexivity. Qed.

(** C6, amended.  When the debounce timer fires, the store starts a write
    of the editor's text of that moment, unconditionally: no last persisted
    value is kept or compared. *)
Theorem timer_firing_always_writes
    (notifies : bool) (st : state) (t : timer) (ms : nat) :
  reachable notifies st ->
  timers st = [t] -> deadline t <= now st + ms ->
  let st' := step notifies (Wait ms) st in
  writes st' = writes st ++ [{| started := deadline t; code := editor st |}]
  /\ outstanding st' = outstanding st ++ [length (writes st)]
  /\ timers st' = [].
Proof.
  intros Hreach Ht Hd. apply reachable_inv in Hreach. cbn zeta. cbn [step].
  destruct (wait_spec st ms (inv_timer _ Hreach) (inv_ready _ Hreach))
    as (_ & [(T & _) | [(t' & T & D & _) | (t' & T & D & T' & W & O)]]).
  - congruence.
  - assert (t' = t) as -> by congruence. lia.
  - assert (t' = t) as -> by congruence. auto.
Qed.

Lemma timer_firing_always_writes_witness :
  let st := text_restored true in
  let st' := step true (Wait 2000) st in
  writes st' = writes st ++ [{| started := 2100; code := editor st |}]
  /\ outstanding st' = outstanding st ++ [length (writes st)]
  /\ timers st' = [].
Proof.
  apply (timer_firing_always_writes true (text_restored true)
           {| tid := 2; deadline := 2100 |} 2000).
  - apply run_reachable, reach_setup. discriminate.
  - vm_compute. reflexivity.
  - vm_compute. lia.
Defined.

(** ** The set-up *)

(** C8, as stated, fails: the remote document exists, and the set-up
    starts a write at once all the same; when it is stored, the code of the
    document is replaced by the default snippet. *)
Lemma setup_writes_over_an_existing_document :
  remote (page_loaded 0 (Some "print(1)")) = Some "print(1)"
  /\ writes (page_loaded 0 (Some "print(1)")) = []
  /\ writes (signed_in "u1" (page_loaded 0 (Some "print(1)")))
     = [{| started := 0; code := default_code |}]
  /\ timers (signed_in "u1" (page_loaded 0 (Some "print(1)"))) = []
  /\ remote (settle 0 true (signed_in "u1" (page_loaded 0 (Some "print(1)"))))
     = Some default_code.
Proof. repeat split; vm_compute; reflexivity. Qed.

(** C8, amended.  [setupEditorPersistence] starts one write of the
    editor's text at once, with no timer, exactly when [db] and [userId]
    are available, whether or not a remote document exists. *)
Theorem setup_always_saves_at_once (st : state) :
  let st' := setupEditorPersistence st in
  writes st'
  = writes st ++ (if ready st
                  then [{| started := now st; code := editor st |}] else [])
  /\ timers st' = timers st
  /\ remote st' = remote st.
Proof.
  cbn zeta. unfold setupEditorPersistence, saveEditorContent.
  destruct (ready st) eqn:E; cbn [negb].
  - change (ready (set_listening true (set_saveTimeout None (set_subscribed true st))))
      with (ready st).
    rewrite E. cbn. repeat split.
  - cbn. now rewrite app_nil_r.
Qed.

(** ** Overlapping writes *)

(** The set-up write is stored, then two edits, each with its own quiet
    period; neither write has settled. *)
Definition two_edits_unsettled (notifies : bool) : state :=
  run notifies [Settle 0 true; Edit "a"; Wait 2000; Edit "ab"; Wait 2000] fresh_store.

(** C9, as stated, fails: in a reachable state two writes of the same
    store are outstanding together; the second started while the first was
    not settled. *)
Lemma two_persists_overlap :
  reachable true (two_edits_unsettled true)
  /\ outstanding (two_edits_unsettled true) = [1; 2]
  /\ writes (two_edits_unsettled true)
     = [{| started := 0; code := default_code |};
        {| started := 2000; code := "a" |};
        {| started := 4000; code := "ab" |}].
Proof.
  split; [apply run_reachable, reach_setup; discriminate |].
  split; vm_compute; reflexivity.
Qed.

(** C9, amended.  In every reachable state of one store, consecutive
    writes started at least the debounce interval of 2000 ms apart; hence
    two of them are outstanding together only if the earlier one has not
    settled 2000 ms after it started.  Nothing else keeps a write from
    starting while another is outstanding. *)
Theorem persists_start_an_interval_apart
    (notifies : bool) (st : state) (i : nat) (w1 w2 : write) :
  reachable notifies st ->
  writes st !! i = Some w1 -> writes st !! S i = Some w2 ->
  started w1 + 2000 <= started w2.
Proof.
  intros Hreach. apply reachable_inv in Hreach.
  apply (inv_spaced _ Hreach).
Qed.

Lemma persists_start_an_interval_apart_witness :
  started {| started := 2000; code := "a" |} + 2000
  <= started {| started := 4000; code := "ab" |}.
Proof.
  apply (persists_start_an_interval_apart true (two_edits_unsettled true) 1).
  - apply run_reachable, reach_setup. discriminate.
  - vm_compute. reflexivity.
  - vm_compute. reflexivity.
Defined.

End SyncFacts.

(* ===================================================================== *)
(** * Facts about the run-code handlers *)
(* ===================================================================== *)
Module RunFacts.
Import JS Run.

Local Open Scope js_scope.

(** ** Statements that leave the run button alone *)

Definition button_off (p : page) : bool := disabled (document p "run-button").

(** [m] returns or throws with the run button as it found it. *)
Definition keeps_button {A} (m : M page A) : Prop :=
  forall p, button_off (snd (m p)) = button_off p.

(** [m] does not throw. *)
Definition no_throw {A} (m : M page A) : Prop :=
  forall p, exists a, fst (m p) = inr a.

Lemma keeps_ret {A} (a : A) : keeps_button (ret a).
Proof. intros p. reflexivity. Qed.

Lemma keeps_throw {A} e : keeps_button (@throw page A e).
Proof. intros p. reflexivity. Qed.

Lemma keeps_lift {A} (r : exn + A) : keeps_button (lift r).
Proof. intros p. reflexivity. Qed.

Lemma keeps_bind {A B} (m : M page A) (k : A -> M page B) :
  keeps_button m -> (forall a, keeps_button (k a)) -> keeps_button (bind m k).
Proof.
  intros Hm Hk p. unfold bind. specialize (Hm p).
  destruct (m p) as [[e | a] p1]; cbn [snd] in *; [exact Hm |].
  now rewrite Hk.
Qed.

Lemma keeps_try_catch {A} (m : M page A) (h : exn -> M page A) :
  keeps_button m -> (forall e, keeps_button (h e)) -> keeps_button (try_catch m h).
Proof.
  intros Hm Hh p. unfold try_catch. specialize (Hm p).
  destruct (m p) as [[e | a] p1]; cbn [snd] in *; [| exact Hm].
  now rewrite Hh.
Qed.

Lemma keeps_on_other id f :
  id <> "run-button" -> keeps_button (modify (on_document (on_element id f))).
Proof.
  intros H p. unfold button_off, modify, on_document, on_element. cbn.
  apply String.eqb_neq in H. now rewrite H.
Qed.

Lemma keeps_fetch r : keeps_button (fetch r).
Proof. intros p. destruct r; reflexivity. Qed.

Lemma keeps_json response : keeps_button (json response).
Proof. intros p. unfold json. destruct (snd response); reflexivity. Qed.

Lemma keeps_displayResult output error : keeps_button (displayResult output error).
Proof.
  unfold displayResult, set_text, set_style_color.
  destruct (truthy error); apply keeps_bind; intros;
    now apply keeps_on_other.
Qed.

Lemma handleRunCode_keeps_button r : keeps_button (handleRunCode r).
Proof.
  unfold handleRunCode, set_text, set_style_color.
  apply keeps_try_catch; [| intros; apply keeps_displayResult].
  repeat first
    [ apply keeps_bind; [| intros ?]
    | apply keeps_displayResult
    | apply keeps_fetch | apply keeps_json | apply keeps_lift
    | apply keeps_ret | apply keeps_throw
    | now apply keeps_on_other
    | match goal with |- keeps_button (if ?c then _ else _) => destruct c end ].
Qed.

Lemma displayResult_no_throw output error : no_throw (displayResult output error).
Proof. intros p. unfold displayResult. destruct (truthy error); now eexists. Qed.

(** A handler that does not throw makes [try ... catch] not throw. *)
Lemma try_catch_no_throw {A} (m : M page A) (h : exn -> M page A) :
  (forall e, no_throw (h e)) -> no_throw (try_catch m h).
Proof.
  intros Hh p. unfold try_catch.
  destruct (m p) as [[e | a] p1]; [apply Hh | now exists a].
Qed.

(** [finally]: the state is the one the final block leaves. *)
Lemma try_finally_modify {A} (m : M page A) (f : page -> page) p :
  try_finally m (modify f) p = (fst (m p), f (snd (m p))).
Proof. unfold try_finally, modify. now destruct (m p). Qed.

Lemma unit_result (x : exn + unit) : (exists a, x = inr a) -> x = inr tt.
Proof. intros [[] H]. exact H. Qed.

Lemma try_finally_two {A} (m : M page A) (f g : page -> page) p :
  try_finally m (modify f ;; modify g) p = (fst (m p), g (f (snd (m p)))).
Proof. unfold try_finally, bind, modify. now destruct (m p). Qed.

Lemma bind_modify {B} (f : page -> page) (k : unit -> M page B) p :
  bind (modify f) k p = k tt (f p).
Proof. reflexivity. Qed.

Lemma bind_assoc {A B C} (m : M page A) (k : A -> M page B) (h : B -> M page C) p :
  bind (bind m k) h p = bind m (fun a => bind (k a) h) p.
Proof. unfold bind. now destruct (m p) as [[e | a] q]. Qed.

(** The handler returns normally and the run button is enabled. *)
Definition completes_enabled (handler : M page unit) (p : page) : Prop :=
  fst (handler p) = inr tt /\ button_off (snd (handler p)) = false.

Ltac finally_enables :=
  split;
  [ apply unit_result, try_catch_no_throw; intros e q; eexists; reflexivity
  | reflexivity ].

Lemma click_structured_completes r p : completes_enabled (click_structured r) p.
Proof.
  unfold completes_enabled, click_structured, set_text, set_class_name, set_button.
  rewrite !bind_modify, try_finally_modify. cbn [fst snd]. finally_enables.
Qed.

Lemma click_plain_completes r p : completes_enabled (click_plain r) p.
Proof.
  unfold completes_enabled, click_plain, set_text, set_class_name, set_button.
  rewrite !bind_modify, try_finally_modify. cbn [fst snd]. finally_enables.
Qed.

Lemma runCode_gutter_completes r p : completes_enabled (runCode_gutter r) p.
Proof.
  unfold completes_enabled, runCode_gutter, set_text, set_class_name, set_button.
  rewrite !bind_modify, try_finally_modify. cbn [fst snd]. finally_enables.
Qed.

Lemma runCode_analyses_completes selectedAnalyses r p :
  completes_enabled (runCode_analyses selectedAnalyses r) p.
Proof.
  unfold completes_enabled, runCode_analyses, updateOutput, set_text, set_button.
  rewrite bind_assoc, !bind_modify, try_finally_two. cbn [fst snd].
  finally_enables.
Qed.

Lemma handleRunCode_completes r p :
  fst (handleRunCode r p) = inr tt
  /\ button_off (snd (handleRunCode r p)) = button_off p.
Proof.
  split; [| apply handleRunCode_keeps_button].
  apply unit_result, try_catch_no_throw. intros e.
  apply displayResult_no_throw.
Qed.

(** C10.  Whatever the request does (the fetch rejects, the body does not
    parse, any status, any JSON body), each of the four handlers that
    disable the run button returns normally with the button enabled, from
    any state of the page; and [handleRunCode], which never disables it,
    returns normally and leaves it as it was. *)
Theorem run_button_enabled_when_handling_completes
    (r : fetch_result) (p : page) (selectedAnalyses : list string) :
  completes_enabled (click_structured r) p
  /\ completes_enabled (click_plain r) p
  /\ completes_enabled (runCode_gutter r) p
  /\ completes_enabled (runCode_analyses selectedAnalyses r) p
  /\ fst (handleRunCode r p) = inr tt
  /\ button_off (snd (handleRunCode r p)) = button_off p.
Proof.
  split; [apply click_structured_completes |].
  split; [apply click_plain_completes |].
  split; [apply runCode_gutter_completes |].
  split; [apply runCode_analyses_completes |].
  apply handleRunCode_completes.
Qed.

End RunFacts.

(* ===================================================================== *)
(** * More about getSuggestion *)
(* ===================================================================== *)
Module RetryMore.
Import JS Retry RetryFacts.

#[local] Arguments Nat.ltb : simpl never.

(** ** The loop under any network *)

Lemma delays_of_outcome N base net v :
  retry_loop N base net = Some v ->
  delays (trace v) = map (backoff base) (seq 1 (sent v - 1)) /\ sent v <= N.
Proof.
  intros Hv.
  destruct (retry_loop_outcome N base net) as (v' & Hv' & _ & H).
  rewrite Hv in Hv'. injection Hv' as <-.
  destruct H as [(Hs & _ & _ & _ & Hsch) | (Hs & _ & _ & _ & Hsch)].
  - split; [| lia]. rewrite <- delays_schedule, Hsch, Hs. now apply delays_plan_all.
  - split; [| lia]. rewrite <- delays_schedule, Hsch, delays_app.
    rewrite delays_plan_before by lia. cbn. now rewrite app_nil_r.
Qed.

(** The requests and the sleeps in the order of the run: after request k
    one sleep of [base * 2^k] when another request follows, none after
    the last. *)
Definition interleaved (base : Z) (m : nat) : list effect :=
  flat_map (fun k => Fetch k :: if k <? m then [Sleep (base * 2 ^ Z.of_nat k)%Z] else [])
           (seq 1 m).

Lemma plan_below N base m : forall n a,
  a + n < N -> a + n < m ->
  plan N base a n
  = flat_map (fun k => Fetch k :: if k <? m then [Sleep (base * 2 ^ Z.of_nat k)%Z] else [])
             (seq (S a) n).
Proof.
  induction n as [| n IH]; intros a HN Hm; [reflexivity |].
  rewrite plan_S, IH by lia.
  replace (S a <? N) with true by (symmetry; apply Nat.ltb_lt; lia).
  cbn [seq flat_map].
  replace (S a <? m) with true by (symmetry; apply Nat.ltb_lt; lia).
  now rewrite Z.mul_comm.
Qed.

Lemma schedule_of_outcome N base net v :
  retry_loop N base net = Some v ->
  schedule (trace v) = interleaved base (sent v)
  /\ (1 <= N -> 1 <= sent v)
  /\ (forall k, 1 <= k < sent v -> fails (net k) = true)
  /\ (sent v < N -> success_payload (net (sent v)) = Some (result v)).
Proof.
  intros Hv.
  destruct (retry_loop_outcome N base net) as (v' & Hv' & _ & H).
  rewrite Hv in Hv'. injection Hv' as <-.
  destruct H as [(Hs & _ & Hf & _ & Hsch) | (Hs & _ & Hf & Hp & Hsch)].
  - split; [| split; [lia | split; [intros k Hk; apply Hf; lia | lia]]].
    rewrite Hsch, Hs, plan_backoff. reflexivity.
  - split; [| split; [lia | split; [exact Hf | intros _; exact Hp]]].
    rewrite Hsch. unfold interleaved.
    replace (sent v) with (sent v - 1 + 1) at 3 by lia.
    rewrite seq_app, flat_map_app.
    rewrite <- (plan_below N base (sent v)) by lia.
    cbn [seq flat_map].
    replace (1 + (sent v - 1)) with (sent v) by lia.
    rewrite Nat.ltb_irrefl. reflexivity.
Qed.

(** X1.  Whatever the network does, the loop ends.  With [maxRetries] >= 1
    it has sent at least one request and at most [maxRetries], numbered
    1, 2, ... without a gap; in the order of the run, a request is followed
    by exactly one sleep when another request comes after it, of
    [base * 2^k] after request k, and by none when it is the last; every
    request but the last failed, and the loop stopped before [maxRetries]
    only on a success status with a parsed body, which is the result. *)
Theorem retries_are_bounded_and_back_off
    (N : nat) (baseDelayMs : Z) (net : nat -> fetch_result) :
  exists v, retry_loop N baseDelayMs net = Some v
    /\ sent v <= N
    /\ (1 <= N -> 1 <= sent v)
    /\ requests (trace v) = seq 1 (sent v)
    /\ delays (trace v)
       = map (fun k => (baseDelayMs * 2 ^ Z.of_nat k)%Z) (seq 1 (sent v - 1))
    /\ schedule (trace v)
       = flat_map (fun k => Fetch k :: if k <? sent v
                                       then [Sleep (baseDelayMs * 2 ^ Z.of_nat k)%Z]
                                       else [])
                  (seq 1 (sent v))
    /\ (forall k, 1 <= k < sent v -> fails (net k) = true)
    /\ (sent v < N -> success_payload (net (sent v)) = Some (result v)).
Proof.
  destruct (retry_loop_outcome N baseDelayMs net) as (v & Hv & Hreq & _).
  destruct (delays_of_outcome N baseDelayMs net v Hv) as (Hd & Hs).
  destruct (schedule_of_outcome N baseDelayMs net v Hv) as (Hsch & H1 & Hf & Hp).
  exists v. repeat (split; [assumption |]). exact Hp.
Qed.

(** The run in which the second request is answered: one sleep, between
    the two requests. *)
Example one_sleep_between_two_requests :
  exists v, retry_loop 3 1000 second_answers_null = Some v
    /\ schedule (trace v) = interleaved 1000 2
    /\ interleaved 1000 2 = [Fetch 1; Sleep 2000; Fetch 2].
Proof. eexists. split; [vm_compute; reflexivity |]. split; reflexivity. Qed.

Definition total (ds : list Z) : Z := fold_right Z.add 0%Z ds.

Lemma total_backoff base : forall n,
  total (map (backoff base) (seq 1 n)) = (base * (2 ^ Z.of_nat (S n) - 2))%Z.
Proof.
  induction n as [| n IH].
  - cbn. lia.
  - rewrite seq_S, map_app. unfold total in *. rewrite fold_right_app. cbn [map fold_right].
    replace (fold_right Z.add (backoff base (1 + n) + 0)%Z (map (backoff base) (seq 1 n)))
      with (fold_right Z.add 0%Z (map (backoff base) (seq 1 n)) + backoff base (1 + n))%Z.
    + rewrite IH. unfold backoff.
      replace (Z.of_nat (S (S n))) with (Z.of_nat (S n) + 1)%Z by lia.
      replace (Z.of_nat (1 + n)) with (Z.of_nat (S n)) by lia.
      rewrite Z.pow_add_r by lia. lia.
    + generalize (backoff base (1 + n)) as x.
      generalize (map (backoff base) (seq 1 n)) as l.
      induction l as [| y l IHl]; intros x; cbn; [lia |].
      rewrite <- IHl. lia.
Qed.

(** X2.  The time the loop spends sleeping: [base * (2^m - 2)] when it has sent
    m >= 1 requests; 6000 ms when the three attempts of the source fail. *)
Theorem total_backoff_of_the_loop
    (N : nat) (baseDelayMs : Z) (net : nat -> fetch_result) (v : vars) :
  retry_loop N baseDelayMs net = Some v -> 1 <= sent v ->
  total (delays (trace v)) = (baseDelayMs * (2 ^ Z.of_nat (sent v) - 2))%Z.
Proof.
  intros Hv Hs.
  destruct (delays_of_outcome N baseDelayMs net v Hv) as (-> & _).
  rewrite total_backoff. now replace (S (sent v - 1)) with (sent v) by lia.
Qed.

Lemma total_backoff_of_the_loop_witness :
  total (delays [Fetch 1; ConsoleError (TypeError "Failed to fetch"); Sleep 2000;
                 Fetch 2; ConsoleError (TypeError "Failed to fetch"); Sleep 4000;
                 Fetch 3; ConsoleError (TypeError "Failed to fetch")])
  = (1000 * (2 ^ Z.of_nat 3 - 2))%Z.
Proof.
  apply (total_backoff_of_the_loop 3 1000 never_connects
           {| attempts := 3; response := None; result := max_retries_result; sent := 3;
              trace := [Fetch 1; ConsoleError (TypeError "Failed to fetch"); Sleep 2000;
                        Fetch 2; ConsoleError (TypeError "Failed to fetch"); Sleep 4000;
                        Fetch 3; ConsoleError (TypeError "Failed to fetch")] |}).
  - vm_compute. reflexivity.
  - cbn. lia.
Defined.

(** ** Rendering the result *)

Definition nullish (v : value) : bool :=
  match v with VUndefined | VNull => true | _ => false end.

Lemma get_defined v k : nullish v = false -> get v k = inr (get_opt v k).
Proof. destruct v; cbn; congruence. Qed.

Lemma first_defined v : nullish v = false -> first v = inr (first_opt v).
Proof. destruct v; cbn; congruence. Qed.

Lemma get_opt_nullish v k : nullish v = true -> get_opt v k = VUndefined.
Proof. destruct v; cbn; congruence. Qed.

Lemma first_opt_nullish v : nullish v = true -> first_opt v = VUndefined.
Proof. destruct v; cbn; congruence. Qed.

Lemma truthy_defined v : truthy v = true -> nullish v = false.
Proof. destruct v; cbn; congruence. Qed.

Lemma truthy_get_opt v k : truthy (get_opt v k) = true -> nullish v = false.
Proof.
  intros H. destruct (nullish v) eqn:E; [| reflexivity].
  rewrite get_opt_nullish in H by exact E. discriminate.
Qed.

Lemma defined_first_opt v : nullish (first_opt v) = false -> nullish v = false.
Proof.
  intros H. destruct (nullish v) eqn:E; [| reflexivity].
  rewrite first_opt_nullish in H by exact E. discriminate.
Qed.

Lemma defined_get_opt v k : nullish (get_opt v k) = false -> nullish v = false.
Proof.
  intros H. destruct (nullish v) eqn:E; [| reflexivity].
  rewrite get_opt_nullish in H by exact E. discriminate.
Qed.

(** [result?.candidates?.[0]?.content?.parts?.[0]?.text] *)
Definition suggestion_of (result : value) : value :=
  get_opt (first_opt (get_opt (get_opt (first_opt (get_opt result "candidates"))
                                 "content") "parts")) "text".

Definition shows_suggestion (t : value) (p : page) : page :=
  on_document (on_element "suggestion-box" (fun box =>
    box_done "border-green-500" "bg-green-50" (set_content (TVal t) box))) p.

Definition shows_api_error (msg : value) (p : page) : page :=
  on_document (on_element "suggestion-box" (fun box =>
    box_done "border-red-500" "bg-red-50"
      (set_content (TMsg (currentLanguage p) "error-api" +++ TLit " " +++ TVal msg) box))) p.

Lemma has_text_spec result p :
  has_text (first_opt (get_opt result "candidates")) p
  = (inr (truthy (suggestion_of result)), p).
Proof.
  unfold has_text, suggestion_of, bind, lift, ret.
  set (candidate := first_opt (get_opt result "candidates")).
  destruct (truthy candidate) eqn:E.
  - rewrite get_defined by now apply truthy_defined. reflexivity.
  - destruct candidate; try discriminate E; reflexivity.
Qed.

Lemma render_spec (result : value) (p : page) :
  render result p =
  if truthy (suggestion_of result) then (inr tt, shows_suggestion (suggestion_of result) p)
  else match get result "error" with
       | inl e => (inl e, p)
       | inr error =>
           if truthy error
           then (inr tt, shows_api_error (get_opt error "message") p)
           else (inr tt, p)
       end.
Proof.
  unfold render. unfold bind at 1 2, read. rewrite has_text_spec.
  destruct (truthy (suggestion_of result)) eqn:E.
  - unfold suggestion_of in E.
    pose proof (truthy_get_opt _ _ E) as H1.
    pose proof (defined_first_opt _ H1) as H2.
    pose proof (defined_get_opt _ _ H2) as H3.
    pose proof (defined_get_opt _ _ H3) as H4.
    unfold bind, lift, modify.
    rewrite (get_defined _ "content" H4), (get_defined _ "parts" H3),
      (first_defined _ H2), (get_defined _ "text" H1).
    reflexivity.
  - unfold bind, lift, modify, ret.
    destruct (get result "error") as [e | error]; [reflexivity |].
    destruct (truthy error) eqn:T; [| reflexivity].
    rewrite get_defined by now apply truthy_defined. reflexivity.
Qed.


(** A 200 answer that has neither a candidate text nor an [error], the
    empty object for one, leaves the suggestion box as it is: it keeps the
    spinner that [getSuggestion] put there. *)
Example empty_object_keeps_the_spinner :
  content (document (snd (getSuggestion 3 1000
             (fun _ => Response {| ok := true; statusText := "OK" |} (BodyJson (VObj [])))
             page_with_error)) "suggestion-box")
  = TLit "<i class='fas fa-spinner fa-spin text-primary-color'></i> "
    +++ TMsg En "getting-suggestion".
Proof. reflexivity. Qed.

(** ** getSuggestion from the click to the suggestion box *)

Local Open Scope js_scope.

(** The page when the loop has ended: the button is busy, the box shows
    the spinner, the requests have been made. *)
Definition after_loop (v : vars) (p : page) : page :=
  set_network (trace v)
    (snd ((setRunning true "suggestion-button" "getting-suggestion" ;;
           l <- read currentLanguage ;;
           modify (on_document (on_element "suggestion-box" (fun box =>
             class_add "animate-pulse" (class_add "border-primary-color"
               (class_remove "border-gray-400" (class_remove "border-dashed"
                 (set_content (TLit "<i class='fas fa-spinner fa-spin text-primary-color'></i> "
                               +++ TMsg l "getting-suggestion") box)))))))) p)).

Lemma getSuggestion_started N base net p v :
  isRunning p = false -> lastErrorMessage p <> "" ->
  retry_loop N base net = Some v ->
  getSuggestion N base net p
  = try_finally (try_catch (render (result v)) render_failed)
      (setRunning false "suggestion-button" "getting-suggestion") (after_loop v p).
Proof.
  intros Hrun Hlast Hloop. apply String.eqb_neq in Hlast.
  unfold getSuggestion, bind at 1 2, read. rewrite Hrun, Hlast, Hloop. reflexivity.
Qed.

Lemma after_loop_language v p : currentLanguage (after_loop v p) = currentLanguage p.
Proof. reflexivity. Qed.

(** [setRunning(false, 'suggestion-button', ...)] leaves the box alone. *)
Lemma setRunning_keeps_box state key p :
  document (snd (setRunning state "suggestion-button" key p)) "suggestion-box"
  = document p "suggestion-box".
Proof. reflexivity. Qed.

Lemma has_class_add c e : has_class c (class_add c e) = true.
Proof.
  unfold class_add. destruct (has_class c e) eqn:E; [exact E |].
  unfold has_class. cbn. rewrite existsb_app. cbn.
  now rewrite String.eqb_refl, orb_true_r.
Qed.

Lemma has_class_add_other c c' e :
  has_class c (class_add c' e) = has_class c e || String.eqb c c'.
Proof.
  unfold class_add. destruct (has_class c' e) eqn:E.
  - destruct (String.eqb_spec c c') as [-> | _].
    + now rewrite E.
    + now rewrite orb_false_r.
  - unfold has_class. cbn. rewrite existsb_app. cbn. now rewrite orb_false_r.
Qed.

Lemma has_class_remove c e : has_class c (class_remove c e) = false.
Proof.
  unfold has_class, class_remove. cbn.
  induction (classes e) as [| c' cs IH]; [reflexivity |]. cbn.
  destruct (String.eqb c c') eqn:E; cbn; [exact IH |]. now rewrite E.
Qed.

(** The finished box: the spinner classes are gone, the border is there. *)
Lemma box_done_classes border bg box :
  border <> "animate-pulse" -> bg <> "animate-pulse" ->
  has_class "animate-pulse" (box_done border bg box) = false
  /\ has_class border (box_done border bg box) = true.
Proof.
  intros H1 H2. unfold box_done. split.
  - rewrite !has_class_add_other, has_class_remove.
    apply not_eq_sym, String.eqb_neq in H1. apply not_eq_sym, String.eqb_neq in H2.
    now rewrite H1, H2.
  - rewrite has_class_add_other, has_class_add. reflexivity.
Qed.

Lemma content_class_add c e : content (class_add c e) = content e.
Proof. unfold class_add. now destruct (has_class c e). Qed.

Lemma content_box_done border bg box : content (box_done border bg box) = content box.
Proof. unfold box_done. now rewrite !content_class_add. Qed.

Lemma shows_api_error_box msg q :
  document (shows_api_error msg q) "suggestion-box"
  = box_done "border-red-500" "bg-red-50"
      (set_content (TMsg (currentLanguage q) "error-api" +++ TLit " " +++ TVal msg)
         (document q "suggestion-box")).
Proof. reflexivity. Qed.


#[local] Arguments shows_api_error : simpl never.
#[local] Arguments shows_suggestion : simpl never.
#[local] Arguments after_loop : simpl never.
#[local] Arguments box_done : simpl never.

(** X4.  When every attempt fails, the user is told so: the suggestion box
    shows the API error text followed by the max-retries message, with the
    red border and without the pulse, and the function returns normally. *)
Theorem exhausted_retries_are_reported
    (N : nat) (baseDelayMs : Z) (net : nat -> fetch_result) (p : page) :
  1 <= N ->
  (forall k, 1 <= k <= N -> fails (net k) = true) ->
  isRunning p = false -> lastErrorMessage p <> "" ->
  exists p', getSuggestion N baseDelayMs net p = (inr tt, p')
    /\ content (document p' "suggestion-box")
       = TMsg (currentLanguage p) "error-api" +++ TLit " " +++ TVal (VStr max_retries_message)
    /\ has_class "border-red-500" (document p' "suggestion-box") = true
    /\ has_class "animate-pulse" (document p' "suggestion-box") = false
    /\ length (requests (network p')) = N.
Proof.
  intros HN Hfail Hrun Hlast.
  destruct (retry_loop_outcome N baseDelayMs net) as (v & Hv & Hreq & H).
  destruct H as [(Hs & _ & _ & Hr & _) | (Hk & _ & _ & Hp & _)].
  2: { apply payload_not_fails in Hp. rewrite Hfail in Hp by exact Hk. discriminate. }
  rewrite (getSuggestion_started N baseDelayMs net p v Hrun Hlast Hv).
  unfold try_finally, try_catch. rewrite render_spec, (Hr HN).
  cbn [suggestion_of truthy get_opt get first_opt own max_retries_result String.eqb
       Ascii.eqb Bool.eqb].
  cbv iota beta.
  match goal with
  | |- context [setRunning false _ _ ?q] =>
      exists (snd (setRunning false "suggestion-button" "getting-suggestion" q))
  end.
  split; [reflexivity |].
  rewrite setRunning_keeps_box, shows_api_error_box, after_loop_language.
  destruct (box_done_classes "border-red-500" "bg-red-50"
              (set_content (TMsg (currentLanguage p) "error-api" +++ TLit " "
                            +++ TVal (VStr max_retries_message))
                 (document (after_loop v p) "suggestion-box")))
    as (Hpulse & Hred); [discriminate | discriminate |].
  split; [now rewrite content_box_done |].
  split; [exact Hred |]. split; [exact Hpulse |].
  change (length (requests (trace v)) = N).
  rewrite Hreq, length_seq. exact Hs.
Qed.

Lemma exhausted_retries_are_reported_witness :
  exists p', getSuggestion 3 1000 never_connects page_with_error = (inr tt, p')
    /\ content (document p' "suggestion-box")
       = TMsg En "error-api" +++ TLit " " +++ TVal (VStr max_retries_message)
    /\ has_class "border-red-500" (document p' "suggestion-box") = true
    /\ has_class "animate-pulse" (document p' "suggestion-box") = false
    /\ length (requests (network p')) = 3.
Proof.
  apply (exhausted_retries_are_reported 3 1000 never_connects page_with_error).
  - lia.
  - intros k _. reflexivity.
  - reflexivity.
  - discriminate.
Defined.






(** X6.  Once started, getSuggestion returns normally whatever the network and
    the payload are, with [isRunning] false, the suggestion button enabled
    and at most [maxRetries] requests made. *)
Theorem getSuggestion_always_finishes
    (N : nat) (baseDelayMs : Z) (net : nat -> fetch_result) (p : page) :
  isRunning p = false -> lastErrorMessage p <> "" ->
  exists p', getSuggestion N baseDelayMs net p = (inr tt, p')
    /\ isRunning p' = false
    /\ disabled (document p' "suggestion-button") = false
    /\ length (requests (network p')) <= N.
Proof.
  intros Hrun Hlast.
  destruct (retry_loop_outcome N baseDelayMs net) as (v & Hv & Hreq & _).
  destruct (delays_of_outcome N baseDelayMs net v Hv) as (_ & Hs).
  destruct (getSuggestion_runs N baseDelayMs net p v Hrun Hlast Hv)
    as (p' & Hp' & Hn & Hr & Hd).
  exists p'. repeat split; try assumption.
  now rewrite Hn, Hreq, length_seq.
Qed.

Lemma getSuggestion_always_finishes_witness :
  exists p', getSuggestion 3 1000 second_answers_null page_with_error = (inr tt, p')
    /\ isRunning p' = false
    /\ disabled (document p' "suggestion-button") = false
    /\ length (requests (network p')) <= 3.
Proof.
  apply (getSuggestion_always_finishes 3 1000 second_answers_null page_with_error).
  - reflexivity.
  - discriminate.
Defined.

(** X7.  Without an error message from a run, or while something is running,
    getSuggestion does nothing: no request, no change of the page. *)
Theorem getSuggestion_needs_an_error
    (N : nat) (baseDelayMs : Z) (net : nat -> fetch_result) (p : page) :
  isRunning p = true \/ lastErrorMessage p = "" ->
  getSuggestion N baseDelayMs net p = (inr tt, p).
Proof.
  intros H. unfold getSuggestion, bind at 1 2, read.
  destruct H as [-> | ->]; [reflexivity |].
  now rewrite orb_true_r.
Qed.

Lemma getSuggestion_needs_an_error_witness :
  getSuggestion 3 1000 never_connects
    {| isRunning := true; lastErrorMessage := "NameError"; currentLanguage := Bn;
       document := fun _ => blank; network := [] |}
  = (inr tt, {| isRunning := true; lastErrorMessage := "NameError"; currentLanguage := Bn;
                document := fun _ => blank; network := [] |}).
Proof.
  apply (getSuggestion_needs_an_error 3 1000 never_connects). left. reflexivity.
Defined.

End RetryMore.

(* ===================================================================== *)
(** * More about the autosave *)
(* ===================================================================== *)
Module SyncMore.
Import Sync SyncFacts.

#[local] Arguments Nat.ltb : simpl never.
#[local] Arguments Nat.leb : simpl never.
#[local] Arguments Nat.add : simpl never.
#[local] Arguments clearTimeout : simpl never.
#[local] Arguments on_change : simpl never.
#[local] Arguments wait : simpl never.

(** ** The pending timer *)

(** A snapshot with a new, non-empty code, on a state of the store. *)
Lemma snapshot_new_spec notifies savedCode st :
  inv st -> savedCode <> "" -> savedCode <> editor st ->
  let st' := step notifies (Snapshot (Document (Some savedCode))) st in
  inv st' /\ editor st' = savedCode /\ now st' = now st
  /\ writes st' = writes st /\ outstanding st' = outstanding st
  /\ timers st' = (if notifies
                   then [{| tid := next_timer st; deadline := now st + 2000 |}]
                   else timers st).
Proof.
  intros H Hne Hnew. cbn zeta.
  split; [now apply step_inv |].
  cbn [step]. rewrite (inv_subscribed _ H).
  apply String.eqb_neq in Hne.
  assert (String.eqb (editor st) savedCode = false) as Hnew'
    by (apply String.eqb_neq; congruence).
  unfold on_snapshot, setValue. rewrite Hne, Hnew'. cbn [negb].
  change (listening (set_editor savedCode st)) with (listening st).
  rewrite (inv_listening _ H), andb_true_r.
  destruct notifies.
  - destruct (on_change_spec _ (inv_timer _ (set_editor_inv savedCode st H)))
      as (T & _ & E1 & E2 & E3 & E4 & _).
    unfold print. cbn. rewrite T, E1, E2, E3, E4. repeat split.
  - cbn. repeat split.
Qed.

(** A snapshot that is not applied changes nothing. *)
Lemma snapshot_ignored notifies docSnap st :
  subscribed st = true ->
  (forall savedCode, docSnap = Document (Some savedCode) ->
     savedCode = "" \/ savedCode = editor st) ->
  step notifies (Snapshot docSnap) st = st.
Proof.
  intros Hs H. cbn [step]. rewrite Hs. unfold on_snapshot.
  destruct docSnap as [| [savedCode |]]; try reflexivity.
  destruct (H savedCode eq_refl) as [-> | ->]; [reflexivity |].
  rewrite String.eqb_refl. cbn. now destruct (negb _).
Qed.

Lemma snapshot_cases notifies docSnap st :
  inv st ->
  step notifies (Snapshot docSnap) st = st
  \/ exists savedCode, docSnap = Document (Some savedCode)
       /\ savedCode <> "" /\ savedCode <> editor st.
Proof.
  intros H.
  destruct docSnap as [| [savedCode |]];
    try (left; apply snapshot_ignored; [apply (inv_subscribed _ H) | discriminate]).
  destruct (decide (savedCode = "")) as [-> | Hne];
    [left; apply snapshot_ignored; [apply (inv_subscribed _ H) | intros ? [= <-]; auto] |].
  destruct (decide (savedCode = editor st)) as [-> | Hnew];
    [left; apply snapshot_ignored; [apply (inv_subscribed _ H) | intros ? [= <-]; auto] |].
  right. eauto.
Qed.

(** Every pending timer is due within the debounce interval. *)
Definition due_soon (st : state) : Prop :=
  forall t, In t (timers st) -> deadline t <= now st + 2000.

Lemma step_due_soon notifies e st :
  inv st -> due_soon st -> due_soon (step notifies e st).
Proof.
  intros H Hd. destruct e as [text | docSnap | ms | w resolved].
  - destruct (edit_spec notifies text st H) as (_ & T & _ & N & _).
    intros t. rewrite T, N. intros [<- | []]. cbn. lia.
  - destruct (snapshot_cases notifies docSnap st H) as [-> | (c & -> & Hne & Hnew)];
      [exact Hd |].
    destruct (snapshot_new_spec notifies c st H Hne Hnew) as (_ & _ & N & _ & _ & T).
    intros t. rewrite T, N. destruct notifies; [| apply Hd].
    intros [<- | []]. cbn. lia.
  - cbn [step].
    destruct (wait_spec st ms (inv_timer _ H) (inv_ready _ H))
      as ((N & _) & [(_ & T & _) | [(t' & T0 & _ & T & _) | (t' & _ & _ & T & _)]]);
      intros t; rewrite T, N.
    + intros [].
    + intros Hin. rewrite <- T0 in Hin. specialize (Hd t Hin). lia.
    + intros [].
  - cbn [step]. destruct (settle_fields w resolved st) as (N & _ & _ & T & _).
    intros t. rewrite T, N. apply Hd.
Qed.

Lemma reachable_due_soon notifies st : reachable notifies st -> due_soon st.
Proof.
  induction 1 as [t0 uid remote0 Huid | e st Hr IH].
  - destruct (signed_in_spec uid t0 remote0 Huid) as (_ & _ & T & _).
    intros t. rewrite T. intros [].
  - apply step_due_soon; [now apply reachable_inv with notifies | exact IH].
Qed.

(** X8.  In every state of the store at most one save timer is pending; it is
    the one [saveTimeout] holds, and it is due in the future, at most 2000
    ms from now. *)
Theorem at_most_one_timer_pending (notifies : bool) (st : state) :
  reachable notifies st ->
  length (timers st) <= 1
  /\ forall t, In t (timers st) ->
       saveTimeout st = Some (tid t) /\ now st < deadline t <= now st + 2000.
Proof.
  intros Hreach.
  pose proof (reachable_due_soon notifies st Hreach) as Hd.
  apply reachable_inv in Hreach.
  destruct (inv_timer _ Hreach) as [T | (t0 & T & S & D & _)].
  - rewrite T. split; [cbn; lia | intros t []].
  - split; [rewrite T; cbn; lia |].
    intros t Hin. specialize (Hd t Hin). rewrite T in Hin.
    destruct Hin as [<- | []]. auto.
Qed.

Lemma at_most_one_timer_pending_witness :
  length (timers (text_restored true)) <= 1
  /\ forall t, In t (timers (text_restored true)) ->
       saveTimeout (text_restored true) = Some (tid t)
       /\ now (text_restored true) < deadline t <= now (text_restored true) + 2000.
Proof.
  apply (at_most_one_timer_pending true (text_restored true)).
  apply run_reachable, reach_setup. discriminate.
Defined.

(** ** Edits that are not close together *)

Lemma edit_then_quiet_inv notifies text quiet st :
  inv st -> inv (run notifies [Edit text; Wait quiet] st).
Proof. intros H. cbn [run fold_left]. now do 2 apply step_inv. Qed.

Lemma spaced_edits_spec notifies : forall edits st,
  inv st -> Forall (fun e => 2000 <= snd e) edits ->
  map code (writes (run notifies (burst edits) st))
  = map code (writes st) ++ map fst edits.
Proof.
  induction edits as [| [text quiet] edits IH]; intros st H Hall.
  - cbn. now rewrite app_nil_r.
  - apply Forall_cons in Hall as [Hq Hall]. cbn [snd] in Hq.
    change (run notifies (burst ((text, quiet) :: edits)) st)
      with (run notifies (burst edits) (run notifies [Edit text; Wait quiet] st)).
    rewrite IH by (try apply edit_then_quiet_inv; assumption).
    destruct (edit_then_quiet notifies text quiet st H Hq) as (W & _).
    rewrite W, map_app, <- app_assoc. reflexivity.
Qed.

(** X9.  Edits that are each followed by a quiet period of the debounce
    interval or more are all persisted, one write per edit, in order. *)
Theorem every_settled_edit_is_persisted
    (notifies : bool) (st : state) (edits : list (string * nat)) :
  reachable notifies st ->
  Forall (fun e => 2000 <= snd e) edits ->
  map code (writes (run notifies (burst edits) st))
  = map code (writes st) ++ map fst edits.
Proof.
  intros Hreach Hall. apply spaced_edits_spec; [| exact Hall].
  now apply reachable_inv with notifies.
Qed.

Lemma every_settled_edit_is_persisted_witness :
  map code (writes (run true (burst [("a", 2000); ("ab", 2001)]) fresh_store))
  = map code (writes fresh_store) ++ ["a"; "ab"].
Proof.
  apply (every_settled_edit_is_persisted true fresh_store [("a", 2000); ("ab", 2001)]).
  - apply reach_setup. discriminate.
  - repeat constructor.
Defined.

(** ** No more writes than changes *)

(** The events that change the editor's text or may do so. *)
Definition changes (es : list event) : nat :=
  length (List.filter (fun e => match e with Edit _ | Snapshot _ => true | _ => false end) es).

Lemma step_budget notifies e st :
  inv st ->
  length (writes (step notifies e st)) + length (timers (step notifies e st))
  <= length (writes st) + length (timers st) + changes [e].
Proof.
  intros H. destruct e as [text | docSnap | ms | w resolved].
  - destruct (edit_spec notifies text st H) as (_ & T & _ & _ & W & _).
    rewrite T, W. cbn. lia.
  - destruct (snapshot_cases notifies docSnap st H) as [-> | (c & -> & Hne & Hnew)];
      [lia |].
    destruct (snapshot_new_spec notifies c st H Hne Hnew) as (_ & _ & _ & W & _ & T).
    rewrite T, W. destruct notifies; cbn; lia.
  - cbn [step].
    destruct (wait_spec st ms (inv_timer _ H) (inv_ready _ H))
      as (_ & [(T0 & T & W & _) | [(t' & T0 & _ & T & W & _) | (t' & T0 & _ & T & W & _)]]);
      rewrite T, W, T0; try rewrite length_app; cbn; lia.
  - cbn [step]. destruct (settle_fields w resolved st) as (_ & _ & W & T & _).
    rewrite T, W. lia.
Qed.

Lemma changes_cons e es : changes (e :: es) = changes [e] + changes es.
Proof. unfold changes. cbn. destruct e; reflexivity. Qed.

Lemma run_budget notifies : forall es st,
  inv st ->
  length (writes (run notifies es st)) + length (timers (run notifies es st))
  <= length (writes st) + length (timers st) + changes es.
Proof.
  induction es as [| e es IH]; intros st H; [cbn; lia |].
  change (run notifies (e :: es) st) with (run notifies es (step notifies e st)).
  pose proof (IH _ (step_inv notifies e st H)) as H1.
  pose proof (step_budget notifies e st H) as H2.
  rewrite changes_cons. lia.
Qed.

(** X10.  After the write of the set-up, the store never starts more writes
    than there were changes: each further write, done or still pending on
    its timer, is paid for by an edit or a snapshot. *)
Theorem no_more_writes_than_changes
    (notifies : bool) (t0 : nat) (uid : string) (remote0 : option string)
    (es : list event) :
  uid <> "" ->
  let st := run notifies es (signed_in uid (page_loaded t0 remote0)) in
  length (writes st) + length (timers st) <= 1 + changes es.
Proof.
  intros Huid. cbn zeta.
  pose proof (run_budget notifies es _ (signed_in_inv uid t0 remote0 Huid)) as H.
  destruct (signed_in_spec uid t0 remote0 Huid) as (W & _ & T & _).
  rewrite W, T in H. exact H.
Qed.

Lemma no_more_writes_than_changes_witness :
  let st := run true [Edit "a"; Wait 500; Edit "ab"; Wait 300; Edit "abc"; Wait 2000;
                      Settle 1 false; Wait 3000]
              (signed_in "u1" (page_loaded 0 None)) in
  length (writes st) + length (timers st)
  <= 1 + changes [Edit "a"; Wait 500; Edit "ab"; Wait 300; Edit "abc"; Wait 2000;
                  Settle 1 false; Wait 3000].
Proof.
  apply (no_more_writes_than_changes true 0 "u1" None
           [Edit "a"; Wait 500; Edit "ab"; Wait 300; Edit "abc"; Wait 2000;
            Settle 1 false; Wait 3000]).
  discriminate.
Defined.

(** ** A remote change during the quiet period *)

(** X11.  The user edits; before the timer fires a snapshot with another code
    arrives and replaces the text in the editor; then it is quiet.  Exactly
    one write is started, and it carries the code of the snapshot: the
    edit is lost, whatever the widget does on [setValue]. *)
Theorem remote_change_replaces_pending_edit
    (notifies : bool) (st : state) (text savedCode : string) (pause : nat) :
  reachable notifies st ->
  pause < 2000 -> savedCode <> "" -> savedCode <> text ->
  let st' := run notifies [Edit text; Wait pause;
                           Snapshot (Document (Some savedCode)); Wait 2000] st in
  map code (writes st') = map code (writes st) ++ [savedCode]
  /\ timers st' = [].
Proof.
  intros Hreach Hp Hne Hnew. apply reachable_inv in Hreach.
  destruct (edit_spec notifies text st Hreach) as (H1 & T1 & E1 & N1 & W1 & _).
  destruct (edit_then_short_pause notifies text pause st Hreach Hp)
    as (H2 & N2 & W2 & _).
  cbn zeta.
  change (run notifies [Edit text; Wait pause; Snapshot (Document (Some savedCode));
                        Wait 2000] st)
    with (step notifies (Wait 2000)
            (step notifies (Snapshot (Document (Some savedCode)))
               (run notifies [Edit text; Wait pause] st))).
  assert (editor (run notifies [Edit text; Wait pause] st) = text
          /\ timers (run notifies [Edit text; Wait pause] st)
             = timers (step notifies (Edit text) st))
    as (E2 & T2).
  { change (run notifies [Edit text; Wait pause] st)
      with (wait pause (step notifies (Edit text) st)).
    destruct (wait_spec (step notifies (Edit text) st) pause
                (inv_timer _ H1) (inv_ready _ H1))
      as ((_ & E & _) & [(T & _) | [(t & T & D & T' & _) | (t & T & D & _)]]).
    - congruence.
    - rewrite E, T', T. auto.
    - rewrite T1 in T. injection T as <-. cbn [deadline] in D. lia. }
  rewrite T1 in T2.
  remember (run notifies [Edit text; Wait pause] st) as st2 eqn:Est2.
  clear Est2 H1 T1 E1 N1 W1.
  assert (savedCode <> editor st2) as Hnew2 by congruence.
  destruct (snapshot_new_spec notifies savedCode st2 H2 Hne Hnew2)
    as (H3 & E3 & N3 & W3 & _ & T3).
  remember (step notifies (Snapshot (Document (Some savedCode))) st2) as st3 eqn:Est3.
  clear Est3.
  cbn [step].
  destruct (wait_spec st3 2000 (inv_timer _ H3) (inv_ready _ H3))
    as (_ & [(T & _) | [(t & T & D & _) | (t & T & D & T' & W & _)]]).
  - rewrite T3 in T. destruct notifies; congruence.
  - rewrite T3 in T. destruct notifies; rewrite ?T2 in T;
      injection T as <-; cbn [deadline] in D; lia.
  - split; [| exact T'].
    rewrite W, map_app, W3, W2, E3. reflexivity.
Qed.

Lemma remote_change_replaces_pending_edit_witness :
  let st' := run false [Edit "mine"; Wait 500;
                        Snapshot (Document (Some "theirs")); Wait 2000] fresh_store in
  map code (writes st') = map code (writes fresh_store) ++ ["theirs"]
  /\ timers st' = [].
Proof.
  apply (remote_change_replaces_pending_edit false fresh_store "mine" "theirs" 500).
  - apply reach_setup. discriminate.
  - apply Nat.ltb_lt. vm_compute. reflexivity.
  - discriminate.
  - discriminate.
Defined.

(** ** Without a database or a user *)

Lemma fire_not_ready st t :
  ready st = false ->
  writes (fire st t) = writes st /\ ready (fire st t) = false.
Proof.
  intros H. unfold fire, saveEditorContent.
  change (ready (set_now (deadline t) st)) with (ready st). rewrite H. cbn. auto.
Qed.

Lemma fires_not_ready : forall ts st,
  ready st = false ->
  writes (fold_left fire ts st) = writes st /\ ready (fold_left fire ts st) = false.
Proof.
  induction ts as [| t ts IH]; intros st H; [auto |].
  cbn [fold_left]. destruct (fire_not_ready st t H) as (W & R).
  destruct (IH _ R) as (W' & R'). split; congruence.
Qed.

Lemma on_change_keeps st :
  writes (on_change st) = writes st /\ ready (on_change st) = ready st.
Proof.
  unfold on_change, setTimeout.
  destruct (clearTimeout_fields (saveTimeout st) st)
    as (_ & _ & W & _ & _ & _ & _ & R & _).
  cbn. unfold ready in *. cbn. auto.
Qed.

Lemma step_not_ready notifies e st :
  ready st = false ->
  writes (step notifies e st) = writes st /\ ready (step notifies e st) = false.
Proof.
  intros H. destruct e as [text | docSnap | ms | w resolved]; cbn [step].
  - destruct (listening (set_editor text st)); [| auto].
    destruct (on_change_keeps (set_editor text st)) as (W & R).
    split; [exact W | now rewrite R].
  - destruct (subscribed st); [| auto]. unfold on_snapshot, setValue.
    destruct docSnap as [| [savedCode |]]; auto.
    destruct (negb (String.eqb savedCode "")); auto.
    destruct (negb (String.eqb (editor st) savedCode)); auto.
    destruct (notifies && listening (set_editor savedCode st)); [| auto].
    destruct (on_change_keeps (set_editor savedCode st)) as (W & R).
    split; [exact W |]. change (ready (on_change (set_editor savedCode st)) = false).
    now rewrite R.
  - unfold wait.
    match goal with
    | |- context [fold_left fire ?ts ?s] =>
        destruct (fires_not_ready ts s H) as (W & R)
    end.
    cbn. unfold ready in *. cbn in *. auto.
  - destruct (settle_fields w resolved st) as (_ & _ & W & _ & _ & R & _).
    split; congruence.
Qed.

(** X12.  While [db] or [userId] is missing nothing is ever written: neither
    the set-up nor any edit, snapshot or timer starts a [setDoc]. *)
Theorem nothing_is_written_without_db_or_user
    (notifies : bool) (st : state) (es : list event) :
  ready st = false ->
  writes (run notifies es (setupEditorPersistence st)) = writes st.
Proof.
  intros H.
  assert (forall es s, ready s = false -> writes (run notifies es s) = writes s) as Hrun.
  { clear. induction es as [| e es IH]; intros s H; [reflexivity |].
    cbn [run fold_left]. destruct (step_not_ready notifies e s H) as (W & R).
    fold (run notifies es (step notifies e s)). rewrite IH by exact R. exact W. }
  unfold setupEditorPersistence. rewrite H. cbn [negb].
  rewrite Hrun by exact H. reflexivity.
Qed.

Lemma nothing_is_written_without_db_or_user_witness :
  writes (run true [Edit "a"; Wait 2000; Snapshot (Document (Some "b")); Wait 2000]
            (setupEditorPersistence (page_loaded 0 None)))
  = writes (page_loaded 0 None).
Proof.
  apply (nothing_is_written_without_db_or_user true (page_loaded 0 None)).
  reflexivity.
Defined.

(** ** A write that fails *)

(** X13.  When a write fails and no edit is pending, the failure is logged and
    that is all: the remote document keeps what it had and no write is
    started again, however long one waits. *)
Theorem failed_write_is_not_retried
    (notifies : bool) (st : state) (w ms : nat) :
  reachable notifies st ->
  timers st = [] -> In w (outstanding st) ->
  let st' := run notifies [Settle w false; Wait ms] st in
  writes st' = writes st /\ remote st' = remote st
  /\ console st' = console st ++ [ErrorSaving]
  /\ ~ In w (outstanding st') /\ timers st' = [].
Proof.
  intros Hreach Ht Hw. apply reachable_inv in Hreach.
  cbn zeta. cbn [run fold_left step].
  pose proof (settle_inv w false st Hreach) as H1.
  destruct (settle_fields w false st) as (_ & _ & W & T & _).
  assert (remote (settle w false st) = remote st
          /\ console (settle w false st) = console st ++ [ErrorSaving]
          /\ outstanding (settle w false st)
             = List.filter (fun i => negb (i =? w)) (outstanding st)) as (R & C & O).
  { unfold settle.
    replace (existsb (Nat.eqb w) (outstanding st)) with true; [cbn; auto |].
    symmetry. apply existsb_exists. exists w. split; [exact Hw | apply Nat.eqb_refl]. }
  remember (settle w false st) as st1 eqn:E. clear E.
  destruct (wait_spec st1 ms (inv_timer _ H1) (inv_ready _ H1))
    as ((_ & _ & _ & R' & C' & _) & [(_ & T' & W' & O') | [(t & T0 & _) | (t & T0 & _)]]);
    try congruence.
  repeat split; try congruence.
  rewrite O', O. intros Hin. apply filter_In in Hin as (_ & Hin).
  now rewrite Nat.eqb_refl in Hin.
Qed.

Lemma failed_write_is_not_retried_witness :
  let st' := run true [Settle 0 false; Wait 3000] fresh_store in
  writes st' = writes fresh_store /\ remote st' = remote fresh_store
  /\ console st' = console fresh_store ++ [ErrorSaving]
  /\ ~ In 0 (outstanding st') /\ timers st' = [].
Proof.
  apply (failed_write_is_not_retried true fresh_store 0 3000).
  - apply reach_setup. discriminate.
  - reflexivity.
  - left. reflexivity.
Defined.

End SyncMore.

(* ===================================================================== *)
(** * More about the run-code pages *)
(* ===================================================================== *)
Module RunMore.
Import JS Run RunFacts.

Local Open Scope js_scope.

(** ** The gutter *)

Lemma newlines_app a b : newlines (a +:+ b) = newlines a + newlines b.
Proof.
  induction a as [| c a IH]; [reflexivity |].
  simpl. rewrite IH. lia.
Qed.

Lemma newlines_uint d : newlines (NilEmpty.string_of_uint d) = 0.
Proof. induction d; cbn [NilEmpty.string_of_uint newlines]; try rewrite IHd; reflexivity. Qed.

Lemma newlines_number_lines : forall todo i text,
  newlines (number_lines i todo text) = newlines text + todo.
Proof.
  induction todo as [| todo IH]; intros i text; cbn [number_lines]; [lia |].
  rewrite IH, !newlines_app. unfold decimal. rewrite newlines_uint.
  change (newlines nl) with 1. lia.
Qed.

Lemma append_empty s : s +:+ "" = s.
Proof.
  induction s as [| c s IH]; [reflexivity |].
  change (String c s +:+ "") with (String c (s +:+ "")). now rewrite IH.
Qed.

Lemma append_assoc a b c : (a +:+ b) +:+ c = a +:+ (b +:+ c).
Proof.
  induction a as [| x a IH]; [reflexivity |].
  change (String x (a +:+ b) +:+ c = String x (a +:+ (b +:+ c))).
  change (String x ((a +:+ b) +:+ c) = String x (a +:+ (b +:+ c))).
  now rewrite IH.
Qed.

Lemma number_lines_extends : forall todo i text,
  exists rest, number_lines i todo text = text +:+ rest.
Proof.
  induction todo as [| todo IH]; intros i text; cbn [number_lines].
  - exists "". now rewrite append_empty.
  - destruct (IH (S i) (text +:+ decimal i +:+ nl)) as (rest & ->).
    exists ((decimal i +:+ nl) +:+ rest). now rewrite <- !append_assoc.
Qed.

(** X14.  The gutter shows one numbered line for each line of the code: its
    text has as many newline characters as [code.split] gives parts, one
    more than the code has, and it begins with the line "1" even when the
    editor is empty. *)
Theorem gutter_has_a_line_for_each_line_of_code (code : string) :
  newlines (updateLineNumbers code) = S (newlines code)
  /\ exists rest, updateLineNumbers code = "1" +:+ nl +:+ rest.
Proof.
  unfold updateLineNumbers, line_count. split.
  - now rewrite newlines_number_lines.
  - cbn [number_lines].
    destruct (number_lines_extends (newlines code) 2 ("" +:+ decimal 1 +:+ nl))
      as (rest & ->).
    exists rest. reflexivity.
Qed.

Example gutter_of_three_lines :
  updateLineNumbers ("a = 1" +:+ nl +:+ "b = 2" +:+ nl +:+ "print(a + b)")
  = "1" +:+ nl +:+ "2" +:+ nl +:+ "3" +:+ nl.
Proof. reflexivity. Qed.

(** ** The pages that do not look at the status *)

(** X15.  The click handlers of src/script.js and src/unnamed/part_000 never
    read [response.ok]: what they show depends on the body alone, so an
    answer with an error status is shown like one with a success status. *)
Theorem click_handlers_ignore_the_status
    (rsp rsp' : http_response) (body : body_result) (p : page) :
  click_structured (Response rsp body) p = click_structured (Response rsp' body) p
  /\ click_plain (Response rsp body) p = click_plain (Response rsp' body) p.
Proof. split; reflexivity. Qed.

(** ** handleRunCode and a non-success status *)

(** X16.  On a status that is not a success, [handleRunCode] does not read the
    body: it shows, in red, the status text behind the prefixes of its own
    [throw] and [catch]. *)
Theorem handleRunCode_reports_the_status
    (rsp : http_response) (body : body_result) (p : page) :
  ok rsp = false ->
  let p' := snd (handleRunCode (Response rsp body) p) in
  content (document p' "output-area")
  = TLit "Error: "
    +++ TVal (VStr ("Network or Unexpected Error: Server Error: " +:+ statusText rsp))
  /\ color (document p' "output-area") = "#f44336".
Proof.
  intros H. unfold handleRunCode, try_catch, bind, fetch, ret, set_text,
    set_style_color, modify. cbn. rewrite H. cbn. split; reflexivity.
Qed.

Lemma handleRunCode_reports_the_status_witness :
  let p' := snd (handleRunCode
                   (Response {| ok := false; statusText := "Internal Server Error" |}
                      (BodyJson (VObj [("error", VStr "Traceback ...")])))
                   {| document := fun _ => blank; console := [] |}) in
  content (document p' "output-area")
  = TLit "Error: "
    +++ TVal (VStr ("Network or Unexpected Error: Server Error: "
                    +:+ statusText {| ok := false; statusText := "Internal Server Error" |}))
  /\ color (document p' "output-area") = "#f44336".
Proof.
  apply (handleRunCode_reports_the_status
           {| ok := false; statusText := "Internal Server Error" |}
           (BodyJson (VObj [("error", VStr "Traceback ...")]))
           {| document := fun _ => blank; console := [] |}).
  reflexivity.
Defined.

(** ** The shape of [error] *)

Definition answers (body : value) : fetch_result :=
  Response {| ok := true; statusText := "OK" |} (BodyJson body).

(** X17.  src/script.js expects [error] to be an object: when the server sends
    a non-empty string instead, as the other pages expect, the type and
    the message it shows are both [undefined] and the string itself is not
    shown. *)
Theorem click_structured_on_a_string_error
    (rsp : http_response) (fields : list (string * value)) (msg : string) (p : page) :
  own "error" fields = VStr msg -> msg <> "" ->
  own "output" fields = VUndefined ->
  let p' := snd (click_structured (Response rsp (BodyJson (VObj fields))) p) in
  content (document p' "output-display")
  = TLit "Error (" +++ TVal VUndefined +++ TLit "): " +++ TVal VUndefined +++ TLit nl
  /\ content (document p' "status-message") = TLit "Finished with Errors"
  /\ has_class "error" (document p' "output-display") = true.
Proof.
  intros He Hne Ho. apply String.eqb_neq in Hne.
  unfold click_structured, try_finally, try_catch, bind, fetch, json, lift, ret,
    set_text, set_class_name, set_button, add_class, modify.
  cbn. rewrite He. cbn. rewrite Hne. cbn. rewrite Ho. cbn.
  repeat split.
Qed.

Lemma click_structured_on_a_string_error_witness :
  let p' := snd (click_structured
                   (Response {| ok := true; statusText := "OK" |}
                      (BodyJson (VObj [("error", VStr "NameError: name 'x' is not defined")])))
                   {| document := fun _ => blank; console := [] |}) in
  content (document p' "output-display")
  = TLit "Error (" +++ TVal VUndefined +++ TLit "): " +++ TVal VUndefined +++ TLit nl
  /\ content (document p' "status-message") = TLit "Finished with Errors"
  /\ has_class "error" (document p' "output-display") = true.
Proof.
  apply (click_structured_on_a_string_error {| ok := true; statusText := "OK" |}
           [("error", VStr "NameError: name 'x' is not defined")]
           "NameError: name 'x' is not defined"
           {| document := fun _ => blank; console := [] |}).
  - reflexivity.
  - discriminate.
  - reflexivity.
Defined.

(** X18.  src/unnamed/part_001 expects [error] to be a string: when the server
    sends an object instead, as src/script.js expects, [cleanError] throws
    on [includes] and the page reports a network error although the
    request succeeded. *)
Theorem runCode_gutter_on_an_object_error
    (rsp : http_response) (fields error : list (string * value)) (p : page) :
  ok rsp = true -> own "error" fields = VObj error ->
  let p' := snd (runCode_gutter (Response rsp (BodyJson (VObj fields))) p) in
  content (document p' "output-area")
  = TLit "Network Error: Could not connect to the execution environment."
  /\ classes (document p' "output-area") = ["error"].
Proof.
  intros Hok He.
  unfold runCode_gutter, try_finally, try_catch, bind, fetch, json, lift, ret,
    set_text, set_class_name, set_button, modify.
  cbn. rewrite Hok, He. cbn. split; reflexivity.
Qed.

Lemma runCode_gutter_on_an_object_error_witness :
  let p' := snd (runCode_gutter
                   (answers (VObj [("output", VStr "");
                                   ("error", VObj [("type", VStr "NameError");
                                                   ("message", VStr "name 'x' is not defined")])]))
                   {| document := fun _ => blank; console := [] |}) in
  content (document p' "output-area")
  = TLit "Network Error: Could not connect to the execution environment."
  /\ classes (document p' "output-area") = ["error"].
Proof.
  apply (runCode_gutter_on_an_object_error {| ok := true; statusText := "OK" |}
           [("output", VStr "");
            ("error", VObj [("type", VStr "NameError");
                            ("message", VStr "name 'x' is not defined")])]
           [("type", VStr "NameError"); ("message", VStr "name 'x' is not defined")]
           {| document := fun _ => blank; console := [] |}).
  - reflexivity.
  - reflexivity.
Defined.

(** ** The body [null] *)

(** X19.  The JSON body [null] parses, but reading a property off it throws:
    with any status, the four pages with a [catch] that shows a fixed
    message show that message. *)
Theorem null_body_ends_in_the_catch_block
    (rsp : http_response) (selectedAnalyses : list string) (p : page) :
  content (document (snd (click_structured (Response rsp (BodyJson VNull)) p))
             "output-display") = connection_error
  /\ content (document (snd (click_plain (Response rsp (BodyJson VNull)) p))
               "output-display") = connection_error
  /\ content (document (snd (runCode_gutter (Response rsp (BodyJson VNull)) p))
               "output-area")
     = TLit "Network Error: Could not connect to the execution environment."
  /\ content (document (snd (runCode_analyses selectedAnalyses
                               (Response rsp (BodyJson VNull)) p)) "output")
     = TMsg Bn "network-error".
Proof.
  repeat split; try reflexivity.
  - unfold runCode_gutter, try_finally, try_catch, bind, fetch, json, lift, ret,
      set_text, set_class_name, set_button, modify. cbn.
    destruct (ok rsp); reflexivity.
  - unfold runCode_analyses, updateOutput, try_finally, try_catch, bind, fetch, json,
      lift, ret, set_text, set_button, modify. cbn.
    destruct (ok rsp); cbn; unfold class_add;
      match goal with |- context [if ?c then _ else _] => destruct c end;
      reflexivity.
Qed.

(** ** cleanError *)

Lemma prefix_spec : forall needle hay,
  String.prefix needle hay = true <-> exists post, hay = needle +:+ post.
Proof.
  induction needle as [| a needle IH]; intros hay.
  - split; [intros _; now exists hay | intros _; now destruct hay].
  - destruct hay as [| b hay]; cbn [String.prefix].
    + split; [discriminate | intros (post & H); discriminate H].
    + destruct (Ascii.ascii_dec a b) as [-> | Hab].
      * rewrite IH. split; intros (post & H); exists post.
        -- now rewrite H.
        -- now injection H.
      * split; [discriminate | intros (post & H)]. injection H as H _. congruence.
Qed.

Lemma includes_cons needle b hay :
  includes needle (String b hay)
  = String.prefix needle (String b hay) || includes needle hay.
Proof.
  unfold includes. cbn [String.index].
  destruct (String.prefix needle (String b hay)); [reflexivity |].
  now destruct (String.index 0 needle hay).
Qed.

(** [includes] is the substring test. *)
Lemma includes_spec needle : forall hay,
  includes needle hay = true <-> exists pre post, hay = pre +:+ needle +:+ post.
Proof.
  induction hay as [| b hay IH].
  - unfold includes. cbn. destruct needle as [| a needle].
    + split; [intros _; now exists "", "" | reflexivity].
    + split; [discriminate | intros (pre & post & H)].
      destruct pre; discriminate H.
  - rewrite includes_cons, orb_true_iff, prefix_spec, IH. split.
    + intros [(post & H) | (pre & post & H)].
      * exists "", post. exact H.
      * exists (String b pre), post. now rewrite H.
    + intros (pre & post & H). destruct pre as [| c pre].
      * left. exists post. exact H.
      * right. exists pre, post. now injection H.
Qed.

Definition timeout_message : text :=
  TLit "Timeout Error: Code execution exceeded the 5 second limit (likely an infinite loop).".

(** X20.  An error text that contains "Execution timed out" anywhere is replaced
    by the timeout message, whatever else it contains. *)
Theorem cleanError_of_a_timeout (pre post : string) :
  cleanError (VStr (pre +:+ "Execution timed out" +:+ post)) = inr timeout_message.
Proof.
  assert (includes "Execution timed out" (pre +:+ "Execution timed out" +:+ post) = true)
    as H by (apply includes_spec; eauto).
  unfold cleanError, value_includes.
  assert (truthy (VStr (pre +:+ "Execution timed out" +:+ post)) = true) as ->.
  { cbn. destruct pre; reflexivity. }
  cbn [negb]. now rewrite H.
Qed.

Definition keywords : list string :=
  ["Execution timed out"; "EOFError: EOF when reading a line";
   "NameError"; "SyntaxError"; "TypeError"].

(** X21.  A non-empty error text that contains none of the five keywords is
    shown as it is. *)
Theorem cleanError_keeps_other_errors (errorStr : string) :
  errorStr <> "" ->
  (forall k, In k keywords -> ~ exists pre post, errorStr = pre +:+ k +:+ post) ->
  cleanError (VStr errorStr) = inr (TVal (VStr errorStr)).
Proof.
  intros Hne Hk. apply String.eqb_neq in Hne.
  assert (forall k, In k keywords -> includes k errorStr = false) as H.
  { intros k Hin. destruct (includes k errorStr) eqn:E; [| reflexivity].
    apply includes_spec in E. now apply Hk in E. }
  unfold cleanError, value_includes. cbn [truthy]. rewrite Hne. cbn [negb].
  rewrite !H by (cbn; auto 10). reflexivity.
Qed.

Lemma not_included k s :
  includes k s = false -> ~ exists pre post, s = pre +:+ k +:+ post.
Proof. intros H E. apply includes_spec in E. congruence. Qed.

Lemma cleanError_keeps_other_errors_witness :
  cleanError (VStr "ZeroDivisionError: division by zero")
  = inr (TVal (VStr "ZeroDivisionError: division by zero")).
Proof.
  apply (cleanError_keeps_other_errors "ZeroDivisionError: division by zero").
  - discriminate.
  - intros k [<- | [<- | [<- | [<- | [<- | []]]]]]; apply not_included; reflexivity.
Defined.

(** ** The page with the analysis buttons *)



Lemma append_analysis_not_selected analysis_results analysis title outputText p :
  append_analysis [] analysis_results analysis title outputText p = (inr outputText, p).
Proof. reflexivity. Qed.



End RunMore.
